(** * vq_vae/network.py: the vector-quantised autoencoder

    A shallow embedding of [src/vq_vae/network.py], and of the model
    classes of [src/vae.py] (module [VAE]).

    The quantiser is embedded twice, for two kinds of property.

    - Module [Torch] follows the calls of the source with the objects that
      they allocate and mutate: a store of tables, modules as values, a
      Python exception as an [Err] carrying the exception class.  Its
      tensor entries are exact rationals ([Qc]).  It carries the properties
      that do not depend on the value that an entry has in float32: the
      shape of a result, what a call leaves unchanged in the store, and
      which exception a call raises.

    - Module [F32] is [VectorQuantize.forward] on float32 entries: IEEE 754
      binary32 values ([spec_float] at 24 bits of precision, exponents
      below 128), with rounding, overflow, infinities, signed zeros and
      nan.  It carries the properties of the values that [forward]
      returns.  The order in which [torch.sum], [torch.matmul] and
      [torch.mean] accumulate is not fixed by the source; the three
      reductions are the fields of a class [Backend], and a theorem holds
      for every backend, or for every backend with a property that the
      theorem names.  [sequential] is the backend that accumulates in index
      order.

    The convolution stacks of [Encoder], [Decoder] and [Model] are
    followed through the shapes of their activations. *)

From Stdlib Require Import QArith Qcanon ZArith List Lia SpecFloat.
From stdpp Require Import base option list numbers.

(** ** Results of Python calls *)

Inductive exn :=
  | AssertionError | IndexError | RuntimeError | TypeError
  | UnboundLocalError | ZeroDivisionError.

Inductive result (A : Type) := Ok (a : A) | Err (e : exn).
Arguments Ok {A} a.
Arguments Err {A} e.

#[global] Instance result_ret : MRet result := @Ok.
#[global] Instance result_bind : MBind result :=
  λ A B k r, match r with Ok a => k a | Err e => Err e end.
#[global] Instance result_fmap : FMap result :=
  λ A B f r, match r with Ok a => Ok (f a) | Err e => Err e end.

(** ** The tensor backend, as far as the source uses it *)

Module Torch.

Local Open Scope Qc_scope.

(** A contiguous tensor: its shape and its entries in row-major order. *)
Record tensor := Tensor { shape : list nat; data : list Qc }.

(** A 2-D tensor given by its rows. *)
Abbreviation matrix := (list (list Qc)).

(** A 0-dim float result. [NaN] arises only from [mean] over no element. *)
Inductive scalar := Fin (q : Qc) | NaN.

Definition numel (x : tensor) : nat := foldr Nat.mul 1%nat (shape x).

Definition wf_tensor (x : tensor) : Prop := length (data x) = numel x.

(** [rows n d l]: the first [n] consecutive blocks of [d] entries of [l]. *)
Fixpoint rows (n d : nat) (l : list Qc) : matrix :=
  match n with
  | O => []
  | S n' => take d l :: rows n' d (drop d l)
  end.

(** [x.view(-1, d)].  The inferred dimension needs [d ≠ 0] and [d] to
    divide the element count; otherwise torch raises. *)
Definition view2 (x : tensor) (d : nat) : option matrix :=
  if decide (d = 0%nat) then None
  else if decide (numel x `mod` d = 0)%nat
       then Some (rows (numel x `div` d) d (data x))
       else None.

(** [m.view(s)]: same entries, new shape; raises unless the counts agree. *)
Definition view_as (m : matrix) (s : list nat) : option tensor :=
  if decide (length (concat m) = foldr Nat.mul 1%nat s)
  then Some (Tensor s (concat m)) else None.

Definition sum (l : list Qc) : Qc := foldr Qcplus 0 l.

Definition pow2 (l : list Qc) : list Qc := (λ v, v * v) <$> l.

(** [torch.sum(m, dim=1)] *)
Definition sum_dim1 (m : matrix) : list Qc := sum <$> m.

Definition dot (a b : list Qc) : Qc := sum (zip_with Qcmult a b).

Definition ncols (m : matrix) : nat :=
  match m with [] => 0%nat | r :: _ => length r end.

(** [m.t()] *)
Definition transpose (m : matrix) : matrix :=
  (λ c, (λ r, nth c r 0) <$> m) <$> seq 0 (ncols m).

(** [torch.matmul(A, B)]: entry (i, j) is row i of [A] times column j of [B]. *)
Definition matmul (A B : matrix) : matrix :=
  (λ a, dot a <$> transpose B) <$> A.

(** A column (n, 1) plus a vector (k,), broadcast to (n, k). *)
Definition broadcast_add (col row : list Qc) : matrix :=
  (λ a, (λ b, a + b) <$> row) <$> col.

Definition msub (A B : matrix) : matrix := zip_with (zip_with Qcminus) A B.

Definition mscale (c : Qc) (A : matrix) : matrix := (λ a : list Qc, Qcmult c <$> a) <$> A.

(** Scan for the minimum; the candidate changes only on a strictly
    smaller value, so the first minimal position is kept. *)
Fixpoint argmin_from (best_i : nat) (best : Qc) (i : nat) (l : list Qc) : nat :=
  match l with
  | [] => best_i
  | v :: l' =>
      if decide (v < best) then argmin_from i v (S i) l'
      else argmin_from best_i best (S i) l'
  end.

(** [torch.argmin] along a dimension; raises when that dimension is empty. *)
Definition argmin (l : list Qc) : option nat :=
  match l with
  | [] => None
  | v :: l' => Some (argmin_from 0 v 1 l')
  end.

(** [torch.argmin(m, dim=1)] for [m] of shape (n, k); raises when k = 0,
    also when there is no row. *)
Definition argmin_dim1 (k : nat) (m : matrix) : option (list nat) :=
  if decide (k = 0%nat) then None else mapM argmin m.

(** [idx.unsqueeze(1)] *)
Definition unsqueeze1 (idx : list nat) : list (list nat) := (λ i, [i]) <$> idx.

(** Elementwise operations on tensors of one shape. *)
Definition tsub (a b : tensor) : tensor :=
  Tensor (shape a) (zip_with Qcminus (data a) (data b)).

Definition tadd (a b : tensor) : tensor :=
  Tensor (shape a) (zip_with Qcplus (data a) (data b)).

Definition tpow2 (a : tensor) : tensor := Tensor (shape a) (pow2 (data a)).

(** [x.detach()] cuts the gradient; the value is the same. *)
Definition detach (a : tensor) : tensor := a.

Definition Qc_of_nat (n : nat) : Qc := Q2Qc (inject_Z (Z.of_nat n)).

(** [torch.mean(x)]: nan when [x] has no element. *)
Definition mean (x : tensor) : scalar :=
  match data x with
  | [] => NaN
  | _ => Fin (sum (data x) / Qc_of_nat (length (data x)))
  end.

(** [c * s] and [s1 + s2] on 0-dim results; nan propagates. *)
Definition smul (c : Qc) (s : scalar) : scalar :=
  match s with Fin q => Fin (c * q) | NaN => NaN end.

Definition sadd (s1 s2 : scalar) : scalar :=
  match s1, s2 with Fin a, Fin b => Fin (a + b) | _, _ => NaN end.

(** *** Tensors that are shared and written in place

    The parameters of a module and the tensors the source mutates in
    place live in a store.  [zeros] allocates a new cell; [scatter_]
    overwrites the cell it is given. *)

Abbreviation loc := nat (only parsing).
Abbreviation heap := (list matrix).
Definition M (A : Type) : Type := heap → result (A * heap).

Definition ret {A} (a : A) : M A := λ h, Ok (a, h).

Definition bind {A B} (m : M A) (k : A → M B) : M B :=
  λ h, match m h with Ok (a, h') => k a h' | Err e => Err e end.

(** A backend call that raises [e] where the pure function has no value. *)
Definition lift {A} (e : exn) (o : option A) : M A :=
  λ h, match o with Some a => Ok (a, h) | None => Err e end.

Definition load (l : loc) : M matrix := λ h, lift RuntimeError (h !! l) h.

Definition store (l : loc) (m : matrix) : M unit :=
  λ h, if decide (l < length h)%nat then Ok ((), <[l := m]> h)
       else Err RuntimeError.

(** [torch.zeros(n, k)] *)
Definition zeros (n k : nat) : M loc :=
  λ h, Ok (length h, h ++ [replicate n (replicate k 0)]).

(** One row of [scatter_(1, index, v)]: [row[j] = v] for each [j] of the
    index row; an index out of range raises. *)
Fixpoint scatter_row (row : list Qc) (js : list nat) (v : Qc) : option (list Qc) :=
  match js with
  | [] => Some row
  | j :: js' =>
      if decide (j < length row)%nat then scatter_row (<[j := v]> row) js' v
      else None
  end.

Fixpoint scatter_rows (m : matrix) (index : list (list nat)) (v : Qc)
  : option matrix :=
  match index, m with
  | [], _ => Some m
  | _ :: _, [] => None
  | js :: index', row :: m' =>
      row' ← scatter_row row js v;
      m'' ← scatter_rows m' index' v;
      Some (row' :: m'')
  end.

(** [self.scatter_(1, index, v)], in place. *)
Definition scatter_ (self : loc) (index : list (list nat)) (v : Qc) : M unit :=
  bind (load self) (λ m,
  bind (lift RuntimeError (scatter_rows m index v)) (λ m',
  store self m')).

End Torch.

Import Torch.

#[global] Instance M_ret : MRet M := @ret.
#[global] Instance M_bind : MBind M := λ A B k m, bind m k.

(** ** [class VectorQuantize] *)

Record VectorQuantize := {
  num_embeddings : nat;
  embeddings_dim : nat;
  commitment_cost : Qc;
  embeddings_weight : loc   (* self.embeddings.weight *)
}.

(** The squared-distance table of [forward]: entry (i, j) is
    |x_i|^2 + |w_j|^2 - 2 x_i.w_j. *)
Definition distance (flatten_inputs weight : matrix) : matrix :=
  msub (broadcast_add (sum_dim1 (pow2 <$> flatten_inputs))
                      (sum_dim1 (pow2 <$> weight)))
       (mscale 2%Qc (matmul flatten_inputs (transpose weight))).

Definition selected_e_index (flatten_inputs weight : matrix)
  : option (list (list nat)) :=
  unsqueeze1 <$> argmin_dim1 (length weight) (distance flatten_inputs weight).

Definition forward (self : VectorQuantize) (inputs : tensor)
  : M (scalar * tensor) :=
  weight ← load (embeddings_weight self);
  flatten_inputs ← lift RuntimeError (view2 inputs (embeddings_dim self));
  selected ← lift IndexError (selected_e_index flatten_inputs weight);
  one_hot_e_index ← zeros (length selected) (num_embeddings self);
  scatter_ one_hot_e_index selected 1%Qc;;
  one_hot ← load one_hot_e_index;
  e ← lift RuntimeError (view_as (matmul one_hot weight) (shape inputs));
  let e_loss := mean (tpow2 (tsub (detach e) inputs)) in
  let q_loss := mean (tpow2 (tsub (detach inputs) e)) in
  let loss := sadd (smul (commitment_cost self) e_loss) q_loss in
  let latent := tadd inputs (detach (tsub e inputs)) in
  mret (loss, latent).

(** The codebook of [self] is the well-formed matrix [W] of the store:
    [nn.Embedding(num_embeddings, embeddings_dim)] has that many rows and
    columns, and the initialisation [1/self.num_embeddings] excludes an
    empty codebook. *)
Definition wf_vq (h : heap) (self : VectorQuantize) (W : matrix) : Prop :=
  h !! embeddings_weight self = Some W ∧
  length W = num_embeddings self ∧
  Forall (λ r, length r = embeddings_dim self) W ∧
  0 < num_embeddings self.

(** ** The convolutional stacks

    For the activations of the convolutional layers only the shape
    (N, C, H, W) is tracked; the layers are the descriptors the source
    constructs them from. *)

Record tshape := TShape { batch : Z; channels : Z; height : Z; width : Z }.

#[global] Instance tshape_eq_dec : EqDecision tshape.
Proof. solve_decision. Defined.

#[local] Set Warnings "-register-all".
Inductive module :=
  | Conv2d (in_channels out_channels kernel_size stride padding : Z)
  | ConvTranspose2d (in_channels out_channels kernel_size stride padding : Z)
  | ReLU
  | Sequential (ms : list module)
  | Residual (_block : module).

(** What a Python list handed to [nn.Sequential] can hold here: a module,
    or the generator object of a generator expression. *)
Inductive pyobj := PModule (m : module) | PGenerator.

(** What [forward] receives and returns: a tensor or a module object. *)
Inductive value := VTensor (s : tshape) | VModule (m : module).

Local Open Scope Z_scope.

(** Output size of a convolution and of a transposed convolution (dilation
    1, no output padding). *)
Definition conv_out (size k s p : Z) : Z := (size + 2 * p - k) `div` s + 1.
Definition conv_transpose_out (size k s p : Z) : Z := (size - 1) * s - 2 * p + k.

(** The shape a module gives to an input of shape [x].  A convolution
    needs positive channel counts that match the input, and an input no
    smaller than its kernel; the batch may be empty. *)
Fixpoint module_forward (m : module) (x : tshape) : result tshape :=
  match m with
  | Conv2d ic oc k s p =>
      if bool_decide (0 ≤ batch x ∧ 0 < ic ∧ 0 < oc ∧ 0 < s ∧ channels x = ic ∧
                      k ≤ height x + 2 * p ∧ k ≤ width x + 2 * p)
      then Ok (TShape (batch x) oc (conv_out (height x) k s p)
                 (conv_out (width x) k s p))
      else Err RuntimeError
  | ConvTranspose2d ic oc k s p =>
      if bool_decide (0 ≤ batch x ∧ 0 < ic ∧ 0 < oc ∧ 0 < s ∧ channels x = ic ∧
                      0 < height x ∧ 0 < width x)
      then Ok (TShape (batch x) oc (conv_transpose_out (height x) k s p)
                 (conv_transpose_out (width x) k s p))
      else Err RuntimeError
  | ReLU => Ok x
  | Sequential ms =>
      (fix go (ms : list module) (x : tshape) : result tshape :=
         match ms with
         | [] => Ok x
         | m' :: ms' =>
             match module_forward m' x with
             | Ok y => go ms' y
             | Err e => Err e
             end
         end) ms x
  | Residual _block =>
      (* inputs + self._block(inputs) *)
      match module_forward _block x with
      | Ok y => if decide (x = y) then Ok x else Err RuntimeError
      | Err e => Err e
      end
  end.

(** [m(v)]: a layer applied to a module object instead of a tensor raises. *)
Definition call (m : module) (v : value) : result value :=
  match v with
  | VTensor s => VTensor <$> module_forward m s
  | VModule _ => Err TypeError
  end.

(** [nn.Sequential] of an unpacked list: every item has to be a module. *)
Fixpoint modules_of (args : list pyobj) : result (list module) :=
  match args with
  | [] => Ok []
  | PModule m :: args' => ms ← modules_of args'; Ok (m :: ms)
  | PGenerator :: _ => Err TypeError
  end.

Definition nn_Sequential (args : list pyobj) : result module :=
  Sequential <$> modules_of args.

(** Reading a local variable that no branch has bound. *)
Definition local {A} (v : option A) : result A :=
  match v with Some a => Ok a | None => Err UnboundLocalError end.

(** [nn.Conv2d(...)] and [nn.ConvTranspose2d(...)]: the constructor
    allocates the weight, of shape (out, in, k, k) or (in, out, k, k), and
    the allocation raises on a negative size. *)
Definition Conv2d_init (in_channels out_channels kernel_size stride padding : Z)
  : result module :=
  if bool_decide (in_channels < 0 ∨ out_channels < 0) then Err RuntimeError
  else Ok (Conv2d in_channels out_channels kernel_size stride padding).

Definition ConvTranspose2d_init
    (in_channels out_channels kernel_size stride padding : Z) : result module :=
  if bool_decide (in_channels < 0 ∨ out_channels < 0) then Err RuntimeError
  else Ok (ConvTranspose2d in_channels out_channels kernel_size stride padding).

(** A list comprehension over [range(n)]: the body runs once per turn. *)
Definition comprehension {A} (n : Z) (body : result A) : result (list A) :=
  mapM (λ _, body) (seq 0 (Z.to_nat n)).

(** *** [class Residual] *)

(** The block of a [Residual(input_channels, residual_units)]. *)
Definition Residual_block (input_channels residual_units : Z) : module :=
  Residual (Sequential
    [ReLU;
     Conv2d input_channels residual_units 3 1 1;
     ReLU;
     Conv2d residual_units input_channels 1 1 0]).

Definition Residual_init (input_channels residual_units : Z) : result module :=
  c1 ← Conv2d_init input_channels residual_units 3 1 1;
  c2 ← Conv2d_init residual_units input_channels 1 1 0;
  Ok (Residual (Sequential [ReLU; c1; ReLU; c2])).

(** *** [class Encoder]

    A constructor takes its positional arguments as a list: a call with a
    different number of arguments raises [TypeError]. *)

Record Encoder := { layers : module }.

Definition Encoder_init (args : list Z) : result Encoder :=
  match args with
  | [in_channels; hidden_units; num_layers; residual_hidden_units;
     number_pre_conv] =>
      if negb (bool_decide (number_pre_conv = 2)
               || bool_decide (number_pre_conv = 4))
      then Err AssertionError
      else
        layer_modules ←
          (if bool_decide (number_pre_conv = 4) then
             c1 ← Conv2d_init in_channels (hidden_units `div` 2) 4 2 1;
             c2 ← Conv2d_init (hidden_units `div` 2) hidden_units 4 2 1;
             c3 ← Conv2d_init hidden_units hidden_units 3 1 1;
             Ok (Some [PModule c1; PModule ReLU; PModule c2; PModule ReLU;
                       PModule c3])
           else if bool_decide (number_pre_conv = 2) then
             c1 ← Conv2d_init (hidden_units `div` 2) hidden_units 4 2 1;
             c2 ← Conv2d_init hidden_units hidden_units 3 1 1;
             Ok (Some [PModule c1; PModule ReLU; PModule c2])
           else Ok None);
        layer_modules ← local layer_modules;
        (* each turn of the loop appends one generator object *)
        let layer_modules :=
          layer_modules ++ replicate (Z.to_nat num_layers) PGenerator in
        let layer_modules := layer_modules ++ [PModule ReLU] in
        layers ← nn_Sequential layer_modules;
        Ok {| layers := layers |}
  | _ => Err TypeError
  end.

Definition Encoder_forward (self : Encoder) (inputs : value) : result value :=
  Ok (VModule (layers self)).

(** *** [class Decoder] *)

Record Decoder := {
  _1_de_conv : module;
  residual_layers : module;
  post_block : module
}.

Definition Decoder_init (args : list Z) : result Decoder :=
  match args with
  | [in_channels; hidden_units; num_layers; residual_hidden_units;
     number_post_trans_conv] =>
      _1_de_conv ← Conv2d_init in_channels hidden_units 3 1 1;
      layer_lists ←
        comprehension num_layers
          (PModule <$> Residual_init hidden_units residual_hidden_units);
      residual_layers ← nn_Sequential layer_lists;
      post_layers_modules ←
        (if bool_decide (number_post_trans_conv = 2) then
           t1 ← ConvTranspose2d_init hidden_units (hidden_units `div` 2) 4 2 1;
           t2 ← ConvTranspose2d_init (hidden_units `div` 2) 3 4 2 1;
           Ok (Some [PModule t1; PModule ReLU; PModule t2])
         else if bool_decide (number_post_trans_conv = 1) then
           t1 ← ConvTranspose2d_init hidden_units 3 4 2 1;
           Ok (Some [PModule t1])
         else Ok None);
      post_layers_modules ← local post_layers_modules;
      post_block ← nn_Sequential post_layers_modules;
      Ok {| _1_de_conv := _1_de_conv; residual_layers := residual_layers;
            post_block := post_block |}
  | _ => Err TypeError
  end.

Definition Decoder_forward (self : Decoder) (inputs : value) : result value :=
  x ← call (_1_de_conv self) inputs;
  x ← call (residual_layers self) x;
  call (post_block self) x.

(** *** [class Model] *)

Record Model := {
  _encoder : Encoder;
  _before_z : module;
  _vq : VectorQuantize;
  _decoder : Decoder
}.

(** [VectorQuantize.__init__]; [draw] is the sample that [uniform_] writes
    into the new embedding table. *)
Definition VectorQuantize_init (num_embeddings embeddings_dim : Z)
    (commitment_cost : Qc) (draw : list (list Qc)) : M VectorQuantize :=
  λ h,
    if bool_decide (num_embeddings < 0 ∨ embeddings_dim < 0)
    then Err RuntimeError
    else if bool_decide (num_embeddings = 0) then Err ZeroDivisionError
    else Ok ({| num_embeddings := Z.to_nat num_embeddings;
                embeddings_dim := Z.to_nat embeddings_dim;
                commitment_cost := commitment_cost;
                embeddings_weight := length h |},
             h ++ [draw]).

Definition raise_or_ret {A} (r : result A) : M A :=
  λ h, match r with Ok a => Ok (a, h) | Err e => Err e end.

Definition Model_init (hidden_units residual_layers residual_hidden_units
    num_embeddings embeddings_dim : Z) (commitment_cost : Qc)
    (draw : list (list Qc)) : M Model :=
  _encoder ← raise_or_ret (Encoder_init
                [3; hidden_units; residual_layers; residual_hidden_units]);
  let _before_z := Conv2d hidden_units embeddings_dim 1 1 0 in
  _vq ← VectorQuantize_init num_embeddings embeddings_dim commitment_cost draw;
  _decoder ← raise_or_ret (Decoder_init
                [embeddings_dim; hidden_units; residual_layers;
                 residual_hidden_units]);
  mret {| _encoder := _encoder; _before_z := _before_z; _vq := _vq;
          _decoder := _decoder |}.

Local Close Scope Z_scope.

(** ** vae.py: the variational autoencoder

    For the linear layers only the shape (rows, columns) of an activation
    is tracked. *)

Module VAE.

Definition BATCH_SIZE : nat := 64.
Definition LATENT_SIZE : nat := 100.

(** [nn.Linear(in_features, out_features)] *)
Record Linear := { in_features : nat; out_features : nat }.

(** A linear layer acts on the last dimension, which has to be
    [in_features]. *)
Definition Linear_forward (l : Linear) (x : nat * nat) : result (nat * nat) :=
  if decide (x.2 = in_features l) then Ok (x.1, out_features l)
  else Err RuntimeError.

(** [F.relu] and [F.sigmoid] act entry by entry. *)
Definition relu (x : nat * nat) : nat * nat := x.
Definition sigmoid (x : nat * nat) : nat * nat := x.

(** Broadcasting of one dimension and of two 2-D shapes. *)
Definition broadcast_dim (a b : nat) : result nat :=
  if decide (a = b) then Ok a
  else if decide (a = 1) then Ok b
  else if decide (b = 1) then Ok a
  else Err RuntimeError.

Definition broadcast (x y : nat * nat) : result (nat * nat) :=
  r ← broadcast_dim x.1 y.1;
  c ← broadcast_dim x.2 y.2;
  Ok (r, c).

(** *** [class Variational_Encoder] *)

Record Variational_Encoder := {
  input_size : nat;
  hidden_size : nat;
  first_layer : Linear;
  second_layer : Linear;
  mean : Linear;
  var : Linear
}.

Definition Variational_Encoder_init (input_size hidden_size : nat)
  : Variational_Encoder :=
  {| input_size := input_size; hidden_size := hidden_size;
     first_layer := {| in_features := input_size; out_features := hidden_size |};
     second_layer := {| in_features := hidden_size; out_features := hidden_size |};
     mean := {| in_features := hidden_size; out_features := LATENT_SIZE |};
     var := {| in_features := hidden_size; out_features := LATENT_SIZE |} |}.

Definition Variational_Encoder_forward (self : Variational_Encoder)
    (x : nat * nat) : result ((nat * nat) * (nat * nat)) :=
  x ← relu <$> Linear_forward (first_layer self) x;
  x ← relu <$> Linear_forward (second_layer self) x;
  mean ← Linear_forward (mean self) x;
  log_var ← Linear_forward (var self) x;
  Ok (mean, log_var).

(** [sample]: [mean + torch.exp(log_var/2) * eps] with [eps] of the fixed
    shape (BATCH_SIZE, LATENT_SIZE). *)
Definition sample (mean log_var : nat * nat) : result (nat * nat) :=
  let eps := (BATCH_SIZE, LATENT_SIZE) in
  scaled ← broadcast log_var eps;
  broadcast mean scaled.

(** *** [class Variational_decoder] *)

Record Variational_decoder := {
  dec_hidden_size : nat;
  output_size : nat;
  layer1 : Linear;
  layer2 : Linear;
  output : Linear
}.

Definition Variational_decoder_init (hidden_size output_size : nat)
  : Variational_decoder :=
  {| dec_hidden_size := hidden_size; output_size := output_size;
     layer1 := {| in_features := LATENT_SIZE; out_features := hidden_size |};
     layer2 := {| in_features := hidden_size; out_features := hidden_size |};
     output := {| in_features := hidden_size; out_features := output_size |} |}.

Definition Variational_decoder_forward (self : Variational_decoder)
    (x : nat * nat) : result (nat * nat) :=
  x ← relu <$> Linear_forward (layer1 self) x;
  x ← relu <$> Linear_forward (layer2 self) x;
  sigmoid <$> Linear_forward (output self) x.

(** The three calls of one turn of the training loop. *)
Definition reconstruct (encoder : Variational_Encoder)
    (decoder : Variational_decoder) (x_variable : nat * nat)
  : result (nat * nat) :=
  '(mean, log_var) ← Variational_Encoder_forward encoder x_variable;
  x_sample ← sample mean log_var;
  Variational_decoder_forward decoder x_sample.

End VAE.

(** ** [class VectorQuantize] on float32 entries

    The same class with the entries the backend computes with: IEEE 754
    binary32 values, operations rounding to nearest even.  The codebook is
    a field here; the store is the subject of the first embedding. *)

Module F32.

(** *** IEEE 754 binary32

    The values and the operations are those of the standard library's
    specification of IEEE 754 arithmetic, at 24 bits of precision and
    exponents below 128, rounding to nearest even. *)

Abbreviation f32 := spec_float (only parsing).

Abbreviation fadd := (SFadd 24 128).
Abbreviation fsub := (SFsub 24 128).
Abbreviation fmul := (SFmul 24 128).
Abbreviation fdiv := (SFdiv 24 128).

(** An integer as a float32, rounded to nearest. *)
Definition of_Z (z : Z) : f32 := binary_normalize 24 128 z 0 false.

(** A Python float (binary64) as the float32 that a float32 kernel reads. *)
Definition of_float (x : spec_float) : f32 :=
  match x with
  | S754_finite s m e => binary_round 24 128 s m e
  | _ => x
  end.

Definition is_nan (x : f32) : bool :=
  match x with S754_nan => true | _ => false end.

(** A float32 number: zero, or a finite value in canonical form. *)
Definition finite (x : f32) : bool :=
  match x with
  | S754_zero _ => true
  | S754_finite _ m e => bounded 24 128 m e
  | _ => false
  end.

(** *** Tensors *)

Record tensor := Tensor { shape : list nat; data : list f32 }.

Abbreviation matrix := (list (list f32)).

Definition numel (x : tensor) : nat := foldr Nat.mul 1%nat (shape x).

Definition wf_tensor (x : tensor) : Prop := length (data x) = numel x.

(** *** Reductions

    The order in which the backend accumulates a sum is not fixed by the
    source: it depends on the kernel that torch picks for the size, the
    layout and the device, and a product may be fused with the addition
    that follows it.  The three reductions that [forward] calls are
    therefore parameters: [sum_k] is one row of [torch.sum(_, dim=1)],
    [dot_k] one entry of [torch.matmul], [mean_k] is [torch.mean] over all
    entries. *)
Class Backend := {
  sum_k : list f32 → f32;
  dot_k : list f32 → list f32 → f32;
  mean_k : list f32 → f32
}.

(** The backend that accumulates in index order, and divides the sum by
    the count for the mean. *)
Definition sequential : Backend := {|
  sum_k l := foldl fadd (S754_zero false) l;
  dot_k a b := foldl fadd (S754_zero false) (zip_with fmul a b);
  mean_k l := fdiv (foldl fadd (S754_zero false) l) (of_Z (Z.of_nat (length l)))
|}.

Section Ops.
Context {B : Backend}.

Fixpoint rows (n d : nat) (l : list f32) : matrix :=
  match n with
  | O => []
  | S n' => take d l :: rows n' d (drop d l)
  end.

(** [x.view(-1, d)] *)
Definition view2 (x : tensor) (d : nat) : option matrix :=
  if decide (d = 0%nat) then None
  else if decide (numel x `mod` d = 0)%nat
       then Some (rows (numel x `div` d) d (data x))
       else None.

(** [m.view(s)] *)
Definition view_as (m : matrix) (s : list nat) : option tensor :=
  if decide (length (concat m) = foldr Nat.mul 1%nat s)
  then Some (Tensor s (concat m)) else None.

(** [x ** 2], entry by entry *)
Definition pow2 (l : list f32) : list f32 := (λ v, fmul v v) <$> l.

(** [torch.sum(m, dim=1)] *)
Definition sum_dim1 (m : matrix) : list f32 := sum_k <$> m.

Definition ncols (m : matrix) : nat :=
  match m with [] => 0%nat | r :: _ => length r end.

(** [m.t()] *)
Definition transpose (m : matrix) : matrix :=
  (λ c, (λ r, nth c r (S754_zero false)) <$> m) <$> seq 0 (ncols m).

(** [torch.matmul(A, B)] *)
Definition matmul (A B : matrix) : matrix :=
  (λ a, dot_k a <$> transpose B) <$> A.

(** A column (n, 1) plus a vector (k,), broadcast to (n, k). *)
Definition broadcast_add (col row : list f32) : matrix :=
  (λ a, (λ b, fadd a b) <$> row) <$> col.

Definition msub (A B : matrix) : matrix := zip_with (zip_with fsub) A B.

Definition mscale (c : f32) (A : matrix) : matrix :=
  (λ a : list f32, fmul c <$> a) <$> A.

(** The comparison of the argmin reduction: [v] replaces the candidate
    [best] when it is nan and [best] is not, or when it is smaller. *)
Definition less_or_nan (v best : f32) : bool :=
  if is_nan best then false
  else if is_nan v then true
  else SFltb v best.

Fixpoint argmin_from (best_i : nat) (best : f32) (i : nat) (l : list f32) : nat :=
  match l with
  | [] => best_i
  | v :: l' =>
      if less_or_nan v best then argmin_from i v (S i) l'
      else argmin_from best_i best (S i) l'
  end.

Definition argmin (l : list f32) : option nat :=
  match l with
  | [] => None
  | v :: l' => Some (argmin_from 0 v 1 l')
  end.

(** [torch.argmin(m, dim=1)] for [m] of shape (n, k); raises when k = 0. *)
Definition argmin_dim1 (k : nat) (m : matrix) : option (list nat) :=
  if decide (k = 0%nat) then None else mapM argmin m.

Definition unsqueeze1 (idx : list nat) : list (list nat) := (λ i, [i]) <$> idx.

Definition tsub (a b : tensor) : tensor :=
  Tensor (shape a) (zip_with fsub (data a) (data b)).

Definition tadd (a b : tensor) : tensor :=
  Tensor (shape a) (zip_with fadd (data a) (data b)).

Definition tpow2 (a : tensor) : tensor := Tensor (shape a) (pow2 (data a)).

Definition detach (a : tensor) : tensor := a.

(** [torch.mean(x)] *)
Definition mean (x : tensor) : f32 := mean_k (data x).

(** [torch.zeros(n, k)] *)
Definition zeros (n k : nat) : matrix := replicate n (replicate k (S754_zero false)).

Fixpoint scatter_row (row : list f32) (js : list nat) (v : f32) : option (list f32) :=
  match js with
  | [] => Some row
  | j :: js' =>
      if decide (j < length row)%nat then scatter_row (<[j := v]> row) js' v
      else None
  end.

(** [self.scatter_(1, index, v)]: the updated table. *)
Fixpoint scatter_ (self : matrix) (index : list (list nat)) (v : f32)
  : option matrix :=
  match index, self with
  | [], _ => Some self
  | _ :: _, [] => None
  | js :: index', row :: m' =>
      row' ← scatter_row row js v;
      m'' ← scatter_ m' index' v;
      Some (row' :: m'')
  end.

Definition lift {A} (e : exn) (o : option A) : result A :=
  match o with Some a => Ok a | None => Err e end.

Record VectorQuantize := {
  num_embeddings : nat;
  embeddings_dim : nat;
  commitment_cost : spec_float;   (* a Python float: binary64 *)
  embeddings_weight : matrix
}.

Definition distance (flatten_inputs weight : matrix) : matrix :=
  msub (broadcast_add (sum_dim1 (pow2 <$> flatten_inputs))
                      (sum_dim1 (pow2 <$> weight)))
       (mscale (of_Z 2) (matmul flatten_inputs (transpose weight))).

Definition selected_e_index (flatten_inputs weight : matrix)
  : option (list (list nat)) :=
  unsqueeze1 <$> argmin_dim1 (length weight) (distance flatten_inputs weight).

Definition forward (self : VectorQuantize) (inputs : tensor)
  : result (f32 * tensor) :=
  let weight := embeddings_weight self in
  flatten_inputs ← lift RuntimeError (view2 inputs (embeddings_dim self));
  selected ← lift IndexError (selected_e_index flatten_inputs weight);
  let one_hot_e_index := zeros (length selected) (num_embeddings self) in
  one_hot_e_index ← lift RuntimeError (scatter_ one_hot_e_index selected (of_Z 1));
  e ← lift RuntimeError (view_as (matmul one_hot_e_index weight) (shape inputs));
  let e_loss := mean (tpow2 (tsub (detach e) inputs)) in
  let q_loss := mean (tpow2 (tsub (detach inputs) e)) in
  let loss := fadd (fmul (of_float (commitment_cost self)) e_loss) q_loss in
  let latent := tadd inputs (detach (tsub e inputs)) in
  Ok (loss, latent).

End Ops.

(** The codebook of [self] has the announced size, and is not empty. *)
Definition wf_vq (self : VectorQuantize) : Prop :=
  length (embeddings_weight self) = num_embeddings self ∧
  Forall (λ r, length r = embeddings_dim self) (embeddings_weight self) ∧
  0 < num_embeddings self.

(** *** Reference notions *)

Definition rect (d : nat) (W : matrix) : Prop := Forall (λ r, length r = d) W.

(** The float32 values 1 and 2. *)
Definition one : f32 := S754_finite false 8388608 (-23).
Definition two : f32 := S754_finite false 8388608 (-22).

(** [|x|^2], as the backend sums it. *)
Definition norm2 {B : Backend} (x : list f32) : f32 :=
  sum_k ((λ v, fmul v v) <$> x).

(** The float32 value of |x|^2 + |w|^2 - 2 x.w, as the backend computes
    it. *)
Definition expansion {B : Backend} (x w : list f32) : f32 :=
  fsub (fadd (norm2 x) (norm2 w)) (fmul two (dot_k x w)).

(** [i] is the position that the argmin reduction returns for [t]: the
    first position of a nan, if [t] holds one, and the first position of
    the least value otherwise. *)
Definition first_least (t : list f32) (i : nat) : Prop :=
  ∃ m, t !! i = Some m ∧
    (m = S754_nan →
     ∀ j v, t !! j = Some v → (j < i)%nat → v ≠ S754_nan) ∧
    (m ≠ S754_nan →
     ∀ j v, t !! j = Some v →
       SFleb m v = true ∧ ((j < i)%nat → SFltb m v = true)).

(** The codebook rows at the positions [idx]. *)
Definition select (W : matrix) (idx : list nat) : matrix :=
  (λ i, nth i W []) <$> idx.

(** The row of the one-hot table for position [i]. *)
Definition one_hot_row (K i : nat) : list f32 :=
  <[i := one]> (replicate K (S754_zero false)).

(** The latent entry for the input entry [x] and the codebook entry [w]:
    [x + (w - x)], rounded twice. *)
Definition through (x w : f32) : f32 := fadd x (fsub w x).

(** [(a - b) ** 2] *)
Definition sq_diff (a b : f32) : f32 := fmul (fsub a b) (fsub a b).

(** Not negative: nan, a zero, or a value with the sign bit clear. *)
Definition nonneg (x : f32) : bool :=
  match x with
  | S754_nan | S754_zero _ => true
  | S754_infinity s | S754_finite s _ _ => negb s
  end.

(** The sign bit is clear (or the value is nan). *)
Definition sign_clear (x : f32) : bool :=
  match x with
  | S754_nan => true
  | S754_zero s | S754_infinity s | S754_finite s _ _ => negb s
  end.

(** Values that are not nan are ordered like their keys, compared
    component by component. *)
Definition key (x : f32) : Z * Z * Z :=
  match x with
  | S754_infinity true => (-2, 0, 0)
  | S754_finite true m e => (-1, - e, Z.neg m)
  | S754_zero _ => (0, 0, 0)
  | S754_finite false m e => (1, e, Z.pos m)
  | S754_infinity false => (2, 0, 0)
  | S754_nan => (3, 0, 0)
  end%Z.

Definition lex_lt (a b : Z * Z * Z) : Prop :=
  (a.1.1 < b.1.1 ∨ a.1.1 = b.1.1 ∧
     (a.1.2 < b.1.2 ∨ a.1.2 = b.1.2 ∧ a.2 < b.2))%Z.

Definition lex_le (a b : Z * Z * Z) : Prop := lex_lt a b ∨ a = b.

(** Equal, or zeros that differ in sign. *)
Definition same_value (a b : f32) : Prop :=
  a = b ∨ ∃ s s', a = S754_zero s ∧ b = S754_zero s'.

(** What the theorems ask of the backend, whatever its order of
    accumulation: the product of a one-hot row with a column of numbers is
    the entry selected (every other product is a zero), and a mean of
    values that are not negative is not negative. *)
Definition selects (B : Backend) : Prop :=
  ∀ (col : list f32) (i : nat) (w : f32),
    col !! i = Some w → Forall (λ v, finite v = true) col →
    same_value (dot_k (one_hot_row (length col) i) col) w.

Definition mean_sign (B : Backend) : Prop :=
  ∀ l : list f32, Forall (λ v, nonneg v = true) l → nonneg (mean_k l) = true.

(** The number that a float32 value stands for (0 for what is not a
    number). *)
Definition exact (x : f32) : Qc :=
  match x with
  | S754_finite s m e =>
      Q2Qc ((if s then -1 else 1) * inject_Z (Z.pos m) * Qpower 2 e)
  | _ => Q2Qc 0
  end.

Definition exact_row (r : list f32) : list Qc := exact <$> r.
Definition exact_rows (W : matrix) : list (list Qc) := exact_row <$> W.

(** *** The scenario of the specification, and inputs that round

    The numbers are written as float32 values: sign, 24-bit mantissa,
    exponent. *)

Definition num_5 : f32 := S754_finite false 10485760 (-21).
Definition num_minus_5 : f32 := S754_finite true 10485760 (-21).
Definition num_10 : f32 := S754_finite false 10485760 (-20).
Definition num_1_25 : f32 := S754_finite false 10485760 (-23).
Definition num_4096 : f32 := S754_finite false 8388608 (-11).
Definition num_4097 : f32 := S754_finite false 8390656 (-11).
Definition num_4099 : f32 := S754_finite false 8394752 (-11).
(** 3 * 2^-25, 2^-23 and 2^67 *)
Definition num_3_2m25 : f32 := S754_finite false 12582912 (-47).
Definition num_2m23 : f32 := S754_finite false 8388608 (-46).
Definition num_2p67 : f32 := S754_finite false 8388608 44.

(** The Python float 0.25 (binary64). *)
Definition quarter : spec_float := S754_finite false 4503599627370496 (-54).

Definition codebook_ex : matrix :=
  [[S754_zero false; S754_zero false]; [num_10; num_10]; [num_5; num_5];
   [num_minus_5; num_minus_5]].

Definition vq_ex : VectorQuantize :=
  {| num_embeddings := 4; embeddings_dim := 2; commitment_cost := quarter;
     embeddings_weight := codebook_ex |}.

Definition z_ex : tensor := Tensor [1; 2]%nat [one; one].

Definition empty_ex : tensor := Tensor [0; 2]%nat [].

(** Rows 4099 and 4096 against the input 4097: both expansions round to 0. *)
Definition vq_near : VectorQuantize :=
  {| num_embeddings := 2; embeddings_dim := 1; commitment_cost := quarter;
     embeddings_weight := [[num_4099]; [num_4096]] |}.

Definition z_near : tensor := Tensor [1; 1]%nat [num_4097].

(** The row [3 * 2^-25, 0] against the input [1, 0]. *)
Definition vq_tiny : VectorQuantize :=
  {| num_embeddings := 1; embeddings_dim := 2; commitment_cost := quarter;
     embeddings_weight := [[num_3_2m25; S754_zero false]] |}.

Definition z_tiny : tensor := Tensor [1; 2]%nat [one; S754_zero false].

(** The row [0, 0] against the input [2^67, 2^67], with a zero
    [commitment_cost]: the squares overflow. *)
Definition vq_big : VectorQuantize :=
  {| num_embeddings := 1; embeddings_dim := 2;
     commitment_cost := S754_zero false;
     embeddings_weight := [[S754_zero false; S754_zero false]] |}.

Definition z_big : tensor := Tensor [1; 2]%nat [num_2p67; num_2p67].

(** The rows [0] and [inf] against the input [-1]. *)
Definition vq_inf : VectorQuantize :=
  {| num_embeddings := 2; embeddings_dim := 1; commitment_cost := quarter;
     embeddings_weight := [[S754_zero false]; [S754_infinity false]] |}.

Definition z_inf : tensor := Tensor [1; 1]%nat [S754_finite true 8388608 (-23)].

End F32.

(** ** Reference notions the theorems are stated with *)

(** Squared Euclidean distance, written directly. *)
Definition sqdist (a b : list Qc) : Qc := sum (pow2 (zip_with Qcminus a b)).

(** [i] is the first position of [W] at minimal squared distance from [x]. *)
Definition first_nearest (W : matrix) (x : list Qc) (i : nat) : Prop :=
  ∃ w, W !! i = Some w ∧
    ∀ j w', W !! j = Some w' →
      (sqdist x w ≤ sqdist x w')%Qc ∧ (j < i → (sqdist x w < sqdist x w')%Qc).

(** The codebook rows at the positions [idx]. *)
Definition select (W : matrix) (idx : list nat) : matrix :=
  (λ i, nth i W []) <$> idx.

(** Mean squared error of two tensors. *)
Definition mse (a b : tensor) : scalar := mean (tpow2 (tsub a b)).

(** A matrix all of whose rows have [d] entries. *)
Definition rect (d : nat) (W : matrix) : Prop := Forall (λ r, length r = d) W.

(** The row of the one-hot table for position [i]. *)
Definition one_hot_row (K i : nat) : list Qc :=
  <[i := 1%Qc]> (replicate K 0%Qc).

(** ** The scenario of the specification *)

Definition codebook_ex : matrix :=
  [[Qc_of_Z 0; Qc_of_Z 0]; [Qc_of_Z 10; Qc_of_Z 10];
   [Qc_of_Z 5; Qc_of_Z 5]; [Qc_of_Z (-5); Qc_of_Z (-5)]].

Definition vq_ex : VectorQuantize :=
  {| num_embeddings := 4; embeddings_dim := 2;
     commitment_cost := Q2Qc (1 # 4); embeddings_weight := 0 |}.

Definition z_ex : tensor := Tensor [1; 2] [Qc_of_Z 1; Qc_of_Z 1].

(** [Encoder(3, 6, 0, 2, 2)] and [Decoder(6, 6, 2, 2, 1)]: one stage down,
    one stage up. *)
Definition enc_ex : Encoder :=
  {| layers := Sequential [Conv2d 3 6 4 2 1; ReLU; Conv2d 6 6 3 1 1; ReLU] |}.

Definition dec_ex : Decoder :=
  {| _1_de_conv := Conv2d 6 6 3 1 1;
     residual_layers := Sequential [Residual_block 6 2; Residual_block 6 2];
     post_block := Sequential [ConvTranspose2d 6 3 4 2 1] |}.

Definition image_ex : tshape := TShape 1 3 8 8.
Definition image_odd_ex : tshape := TShape 1 3 5 5.

(** Further inputs for the quantiser: three entries (not a multiple of 2),
    a second row, and the two rows as one batch. *)
Definition odd_ex : tensor := Tensor [3] [Qc_of_Z 1; Qc_of_Z 1; Qc_of_Z 1].

(** ** Lists, sums and blocks *)

Section ListFacts.
Local Open Scope Qc_scope.

Lemma rows_length n d l : length (rows n d l) = n.
Proof. revert l; induction n as [|n IH]; intros l; simpl; [done|]. by rewrite IH. Qed.

Lemma rows_row_length n d l :
  length l = (n * d)%nat → Forall (λ r, length r = d) (rows n d l).
Proof.
  revert l; induction n as [|n IH]; intros l Hl; simpl; constructor.
  - rewrite length_take. lia.
  - apply IH. rewrite length_drop. lia.
Qed.

Lemma fmap_nth_seq {A} (l : list A) (a : A) :
  (λ i, nth i l a) <$> seq 0 (length l) = l.
Proof.
  apply list_eq; intros i. rewrite list_lookup_fmap.
  destruct (decide (i < length l)%nat) as [Hi|Hi].
  - rewrite lookup_seq_lt by done. simpl.
    destruct (lookup_lt_is_Some_2 l i Hi) as [x Hx].
    by rewrite (nth_lookup_Some _ _ _ _ Hx), Hx.
  - rewrite lookup_seq_ge, lookup_ge_None_2 by lia. done.
Qed.

Lemma zip_with_fmap_fmap {A B C D} (f : B → C → D) (g : A → B) (k : A → C)
    (l : list A) :
  zip_with f (g <$> l) (k <$> l) = (λ a, f (g a) (k a)) <$> l.
Proof. induction l as [|a l IH]; csimpl; [done|]. by rewrite IH. Qed.

(** The expansion of the source and the squared distance agree. *)
Lemma expansion_sqdist a b :
  length a = length b →
  sum (pow2 a) + sum (pow2 b) - 2 * dot a b = sqdist a b.
Proof.
  unfold sqdist, dot.
  revert b; induction a as [|x a IH]; intros [|y b] Hl; try discriminate;
    cbn [pow2 fmap list_fmap zip_with sum foldr].
  - ring.
  - injection Hl as Hl. fold (pow2 a) (pow2 b) (pow2 (zip_with Qcminus a b)).
    fold (sum (pow2 a)) (sum (pow2 b)) (sum (zip_with Qcmult a b))
         (sum (pow2 (zip_with Qcminus a b))).
    rewrite <-(IH b) by done. ring.
Qed.

(** *** [argmin] returns the first minimal position *)

Lemma argmin_from_spec l : ∀ pre bi b,
  pre !! bi = Some b →
  (∀ j v, pre !! j = Some v → b ≤ v ∧ ((j < bi)%nat → b < v)) →
  ∃ m, (pre ++ l) !! argmin_from bi b (length pre) l = Some m ∧
    ∀ j v, (pre ++ l) !! j = Some v →
      m ≤ v ∧ ((j < argmin_from bi b (length pre) l)%nat → m < v).
Proof.
  induction l as [|v l IH]; intros pre bi b Hb Hmin; simpl.
  - rewrite app_nil_r. eauto.
  - assert (Hlen : length (pre ++ [v]) = S (length pre))
      by (rewrite length_app; simpl; lia).
    assert (Hbi : (bi < length pre)%nat) by (by eapply lookup_lt_Some).
    replace (pre ++ v :: l) with ((pre ++ [v]) ++ l) by (by rewrite <-app_assoc).
    rewrite <-Hlen. case_decide as Hv.
    + apply IH.
      * by rewrite lookup_app_r, Nat.sub_diag.
      * intros j w Hj. destruct (decide (j < length pre)%nat) as [Hlt|Hge].
        -- rewrite lookup_app_l in Hj by done. destruct (Hmin j w Hj) as [Hle _].
           split; [|intros _]; [apply Qclt_le_weak|];
             eapply Qclt_le_trans; eauto.
        -- rewrite lookup_app_r in Hj by lia.
           destruct (j - length pre)%nat eqn:E; simplify_eq/=.
           split; [done|lia].
    + apply IH.
      * by rewrite lookup_app_l.
      * intros j w Hj. destruct (decide (j < length pre)%nat) as [Hlt|Hge].
        -- rewrite lookup_app_l in Hj by done. by apply Hmin.
        -- rewrite lookup_app_r in Hj by lia.
           destruct (j - length pre)%nat eqn:E; simplify_eq/=.
           split; [by apply Qcnot_lt_le|lia].
Qed.

Lemma argmin_spec l i :
  argmin l = Some i →
  ∃ m, l !! i = Some m ∧
    ∀ j v, l !! j = Some v → m ≤ v ∧ ((j < i)%nat → m < v).
Proof.
  destruct l as [|v l]; intros Hi; simplify_eq/=.
  apply (argmin_from_spec l [v] 0%nat v); [done|].
  intros [|j] w Hj; simplify_eq/=. split; [done|lia].
Qed.

Lemma argmin_is_Some l : l ≠ [] → is_Some (argmin l).
Proof. destruct l; [done|]. simpl; eauto. Qed.

(** *** Transposition and products of rectangular matrices *)

Lemma ncols_rect d W : rect d W → W ≠ [] → ncols W = d.
Proof. destruct 1; [done|]. done. Qed.

Lemma transpose_lookup W c :
  (c < ncols W)%nat → transpose W !! c = Some ((λ r, nth c r 0) <$> W).
Proof.
  intros Hc. unfold transpose. rewrite list_lookup_fmap, lookup_seq_lt by done.
  done.
Qed.

Lemma transpose_length W : length (transpose W) = ncols W.
Proof. unfold transpose. by rewrite length_fmap, length_seq. Qed.

Lemma nth_fmap_rows (W : matrix) j c :
  (j < length W)%nat → nth j ((λ r, nth c r 0) <$> W) 0 = nth c (nth j W []) 0.
Proof.
  intros Hj. destruct (lookup_lt_is_Some_2 W j Hj) as [r Hr].
  rewrite (nth_lookup_Some _ _ _ _ Hr).
  apply nth_lookup_Some. by rewrite list_lookup_fmap, Hr.
Qed.

Lemma transpose_involutive d W :
  rect d W → W ≠ [] → (0 < d)%nat → transpose (transpose W) = W.
Proof.
  intros Hr Hne Hd. pose proof (ncols_rect d W Hr Hne) as Hc.
  assert (Hc' : ncols (transpose W) = length W).
  { unfold transpose. rewrite Hc. destruct d; [lia|].
    simpl. by rewrite length_fmap. }
  apply list_eq; intros j.
  destruct (decide (j < length W)%nat) as [Hj|Hj].
  - rewrite transpose_lookup by lia.
    destruct (lookup_lt_is_Some_2 W j Hj) as [r Hjr]. rewrite Hjr. f_equal.
    unfold transpose. rewrite Hc, <-list_fmap_compose.
    rewrite <-(fmap_nth_seq r 0) at 1.
    rewrite (Forall_lookup_1 _ _ _ _ Hr Hjr).
    apply list_fmap_ext; intros k c Hk; simpl.
    rewrite nth_fmap_rows by done. by rewrite (nth_lookup_Some _ _ _ _ Hjr).
  - rewrite !lookup_ge_None_2; [done|lia|]. rewrite transpose_length. lia.
Qed.

(** Every entry of the distance table is the expansion for its pair. *)
Lemma distance_entries d (X W : matrix) :
  rect d W → W ≠ [] → (0 < d)%nat →
  distance X W =
    (λ x, (λ w, sum (pow2 x) + sum (pow2 w) - 2 * dot x w) <$> W) <$> X.
Proof.
  intros Hr Hne Hd. unfold distance, msub, mscale, matmul, broadcast_add, sum_dim1.
  rewrite (transpose_involutive d W) by done.
  rewrite <-!list_fmap_compose, zip_with_fmap_fmap.
  apply list_fmap_ext; intros _ x _; simpl.
  rewrite <-!list_fmap_compose, zip_with_fmap_fmap. done.
Qed.

(** *** The assignment step *)

Lemma nearest_of_argmin d (W : matrix) (x : list Qc) i :
  rect d W → length x = d →
  argmin ((λ w, sum (pow2 x) + sum (pow2 w) - 2 * dot x w) <$> W) = Some i →
  first_nearest W x i.
Proof.
  intros Hr Hx Hi. apply argmin_spec in Hi as (m & Hm & Hmin).
  rewrite list_lookup_fmap in Hm.
  destruct (W !! i) as [w|] eqn:Hw; simplify_eq/=.
  exists w; split; [done|]. intros j w' Hj.
  rewrite <-!expansion_sqdist
    by (rewrite ?(Forall_lookup_1 _ _ _ _ Hr Hw), ?(Forall_lookup_1 _ _ _ _ Hr Hj); done).
  apply Hmin. by rewrite list_lookup_fmap, Hj.
Qed.

Lemma selected_spec d (X W : matrix) :
  rect d W → W ≠ [] → (0 < d)%nat → rect d X →
  ∃ idx, selected_e_index X W = Some (unsqueeze1 idx) ∧
         Forall2 (first_nearest W) X idx.
Proof.
  intros Hr Hne Hd HX. unfold selected_e_index, argmin_dim1.
  rewrite decide_False by (by destruct W).
  rewrite (distance_entries d) by done.
  enough (∃ idx, mapM argmin
            ((λ x, (λ w, sum (pow2 x) + sum (pow2 w) - 2 * dot x w) <$> W) <$> X)
            = Some idx ∧ Forall2 (first_nearest W) X idx) as (idx & -> & ?)
    by (by exists idx).
  induction HX as [|x X Hx HX IH].
  - exists []. split; [done|constructor].
  - destruct IH as (idx & Hidx & Hall).
    destruct (argmin_is_Some ((λ w, sum (pow2 x) + sum (pow2 w) - 2 * dot x w) <$> W))
      as [i Hi]; [by destruct W|].
    exists (i :: idx). split.
    + rewrite fmap_cons. apply mapM_Some_2. constructor; [done|].
      by apply mapM_Some_1.
    + constructor; [by eapply nearest_of_argmin|done].
Qed.

Lemma first_nearest_lt W x i : first_nearest W x i → (i < length W)%nat.
Proof. intros (w & Hw & _). by eapply lookup_lt_Some. Qed.

(** *** The one-hot table and the selection product *)

Lemma scatter_one_hot K (idx : list nat) :
  Forall (λ i, i < K)%nat idx →
  scatter_rows (replicate (length idx) (replicate K 0)) (unsqueeze1 idx) 1
  = Some (one_hot_row K <$> idx).
Proof.
  induction 1 as [|i idx Hi _ IH]; [done|]. csimpl.
  rewrite decide_True by (by rewrite length_replicate).
  csimpl. by rewrite IH.
Qed.

Lemma dot_cons x a y b : dot (x :: a) (y :: b) = x * y + dot a b.
Proof. done. Qed.

Lemma dot_zeros n col : dot (replicate n 0) col = 0.
Proof.
  revert col; induction n as [|n IH]; intros [|c col]; try done.
  change (replicate (S n) 0) with (0 :: replicate n 0).
  rewrite dot_cons, IH. ring.
Qed.

Lemma dot_one_hot col : ∀ i,
  (i < length col)%nat → dot (one_hot_row (length col) i) col = nth i col 0.
Proof.
  unfold one_hot_row.
  induction col as [|c col IH]; intros i Hi; simpl in Hi; [lia|].
  destruct i as [|i].
  - change (<[0%nat:=1]> (replicate (length (c :: col)) 0))
      with (1 :: replicate (length col) 0).
    rewrite dot_cons, dot_zeros. simpl. ring.
  - change (<[S i:=1]> (replicate (length (c :: col)) 0))
      with (0 :: <[i:=1]> (replicate (length col) 0)).
    rewrite dot_cons, IH by lia. simpl. ring.
Qed.

Lemma matmul_one_hot d (W : matrix) (idx : list nat) :
  rect d W → W ≠ [] → Forall (λ i, i < length W)%nat idx →
  matmul (one_hot_row (length W) <$> idx) W = select W idx.
Proof.
  intros Hr Hne Hidx. unfold matmul, select. rewrite <-list_fmap_compose.
  apply list_fmap_ext; intros k i Hk; simpl.
  pose proof (Forall_lookup_1 _ _ _ _ Hidx Hk) as Hi; simpl in Hi.
  unfold transpose.
  rewrite (ncols_rect d W Hr Hne), <-list_fmap_compose.
  destruct (lookup_lt_is_Some_2 W i Hi) as [w Hw].
  rewrite (nth_lookup_Some _ _ _ _ Hw).
  rewrite <-(fmap_nth_seq w 0) at 1. rewrite (Forall_lookup_1 _ _ _ _ Hr Hw).
  apply list_fmap_ext; intros _ c _; simpl.
  rewrite <-(length_fmap (λ r, nth c r 0) W) at 1.
  rewrite dot_one_hot by (by rewrite length_fmap).
  rewrite nth_fmap_rows by done. by rewrite (nth_lookup_Some _ _ _ _ Hw).
Qed.

Lemma select_rect d (W : matrix) idx :
  rect d W → Forall (λ i, i < length W)%nat idx → rect d (select W idx).
Proof.
  intros Hr Hidx. unfold rect, select. rewrite Forall_fmap.
  apply Forall_forall; intros i Hin; simpl.
  pose proof (proj1 (Forall_forall _ _) Hidx i Hin) as Hi; simpl in Hi.
  destruct (lookup_lt_is_Some_2 W i Hi) as [w Hw].
  rewrite (nth_lookup_Some _ _ _ _ Hw). by eapply (Forall_lookup_1 _ _ _ _ Hr).
Qed.

Lemma concat_rect_length d (m : matrix) :
  rect d m → length (concat m) = (length m * d)%nat.
Proof.
  induction 1 as [|r m Hr _ IH]; [done|]. simpl. rewrite length_app. lia.
Qed.

Lemma straight_through (a b : list Qc) :
  length a = length b → zip_with Qcplus a (zip_with Qcminus b a) = b.
Proof.
  revert b; induction a as [|x a IH]; intros [|y b] Hl; simplify_eq/=; [done|].
  f_equal; [ring|by apply IH].
Qed.

End ListFacts.

(** ** One run of [VectorQuantize.forward] *)

Section Forward.
Context (h : heap) (self : VectorQuantize) (W : matrix) (inputs : tensor).
Hypothesis Hvq : wf_vq h self W.
Hypothesis Hx : wf_tensor inputs.
Hypothesis Hd : 0 < embeddings_dim self.
Hypothesis Hdiv : numel inputs `mod` embeddings_dim self = 0.

Lemma view2_run :
  view2 inputs (embeddings_dim self)
  = Some (rows (numel inputs `div` embeddings_dim self) (embeddings_dim self)
            (data inputs)).
Proof. unfold view2. rewrite decide_False by lia. by rewrite decide_True. Qed.

Lemma numel_blocks :
  length (data inputs)
  = numel inputs `div` embeddings_dim self * embeddings_dim self.
Proof.
  rewrite Hx. apply Nat.Div0.div_exact in Hdiv. lia.
Qed.

(** The run, step by step: the flattened rows [X], the assigned
    positions [idx], the returned pair and the store afterwards. *)
Lemma forward_run :
  ∃ X idx,
    view2 inputs (embeddings_dim self) = Some X ∧
    selected_e_index X W = Some (unsqueeze1 idx) ∧
    Forall2 (first_nearest W) X idx ∧
    let e := Tensor (shape inputs) (concat (select W idx)) in
    length (data e) = length (data inputs) ∧
    forward self inputs h
    = Ok ((sadd (smul (commitment_cost self) (mse e inputs)) (mse inputs e), e),
            h ++ [one_hot_row (num_embeddings self) <$> idx]).
Proof.
  destruct Hvq as (HW & HK & Hrect & Hpos).
  assert (HWne : W ≠ []) by (intros ->; simpl in HK; lia).
  pose proof numel_blocks as Hlen.
  set (N := numel inputs `div` embeddings_dim self) in *.
  set (X := rows N (embeddings_dim self) (data inputs)).
  destruct (selected_spec (embeddings_dim self) X W) as (idx & Hsel & Hnear);
    [done|done|done|by apply rows_row_length|].
  assert (Hidx : Forall (λ i, i < length W) idx).
  { apply (Forall2_Forall_r _ _ _ _ Hnear), Forall_true.
    intros ??; apply first_nearest_lt. }
  assert (HN : length idx = N).
  { pose proof Hnear as Hl. apply Forall2_length in Hl.
    rewrite <-Hl. apply rows_length. }
  assert (He : length (concat (select W idx)) = length (data inputs)).
  { rewrite (concat_rect_length (embeddings_dim self)) by (by apply select_rect).
    unfold select. rewrite length_fmap. lia. }
  exists X, idx. split; [apply view2_run|]. do 2 (split; [done|]).
  split; [done|].
  cbv beta zeta delta
    [forward mbind M_bind bind load lift zeros scatter_ store].
  rewrite HW, view2_run. fold N X. rewrite Hsel.
  unfold unsqueeze1. rewrite length_fmap. fold (unsqueeze1 idx).
  rewrite list_lookup_middle by done. rewrite <-HK.
  rewrite scatter_one_hot by done.
  rewrite decide_True by (rewrite length_app; simpl; lia).
  rewrite insert_app_r_alt, Nat.sub_diag by lia. simpl. rewrite list_lookup_middle by done.
  rewrite (matmul_one_hot (embeddings_dim self)) by done.
  unfold view_as. rewrite decide_True by (by rewrite He, Hx).
  unfold mret, M_ret, ret, detach, mse.
  do 3 f_equal. unfold tadd, tsub; simpl. f_equal.
  by apply straight_through.
Qed.

End Forward.

(** Whatever the inputs, a run that returns has only added one cell to the
    store: the one-hot table of this call. *)
Lemma forward_store (h : heap) self inputs r h' :
  forward self inputs h = Ok (r, h') → ∃ m, h' = h ++ [m].
Proof.
  cbv beta zeta delta
    [forward mbind M_bind bind load lift zeros scatter_ store mret M_ret ret].
  destruct (h !! embeddings_weight self) as [W|]; [|done].
  destruct (view2 _ _) as [X|]; [|done].
  destruct (selected_e_index _ _) as [sel|]; [|done].
  rewrite list_lookup_middle by done.
  destruct (scatter_rows _ _ _) as [m|]; [|done].
  rewrite decide_True by (rewrite length_app; simpl; lia).
  rewrite insert_app_r_alt, Nat.sub_diag by lia. simpl.
  rewrite list_lookup_middle by done.
  destruct (view_as _ _) as [e|]; [|done].
  intros [= <- <-]. by exists m.
Qed.

(** The constructor establishes the well-formedness that the theorems on
    [forward] assume, for a draw of the announced size. *)
Lemma VectorQuantize_init_wf K d cc (draw : matrix) (h : heap) :
  (0 < K)%Z → (0 ≤ d)%Z →
  length draw = Z.to_nat K → rect (Z.to_nat d) draw →
  ∃ self, VectorQuantize_init K d cc draw h = Ok (self, h ++ [draw]) ∧
          wf_vq (h ++ [draw]) self draw.
Proof.
  intros HK Hd Hlen Hrect. unfold VectorQuantize_init.
  rewrite bool_decide_eq_false_2 by lia.
  rewrite bool_decide_eq_false_2 by lia.
  eexists; split; [done|]. split; [|split; [done|split; [done|simpl; lia]]].
  simpl. by apply list_lookup_middle.
Qed.

(** Equality of closed terms with rational entries: evaluate, then compare
    the entries as fractions. *)
Ltac qc_eq :=
  vm_compute;
  repeat first [ apply Qc_is_canon; reflexivity | progress f_equal ];
  try reflexivity.

Lemma wf_vq_ex : wf_vq [codebook_ex] vq_ex codebook_ex.
Proof.
  split; [done|]. split; [done|]. split; [|simpl; lia].
  repeat constructor.
Qed.

Lemma forward_ex :
  forward vq_ex z_ex [codebook_ex]
  = Ok ((Fin (Q2Qc (5 # 4)), Tensor [1; 2] [Qc_of_Z 0; Qc_of_Z 0]),
        [codebook_ex; [[Qc_of_Z 1; Qc_of_Z 0; Qc_of_Z 0; Qc_of_Z 0]]]).
Proof. qc_eq. Qed.

(** ** Properties of [VectorQuantize.forward] *)



(** C10.  A call of [forward] that returns leaves every cell the store had
    before the call as it was, the codebook among them: the store has only
    grown by the one-hot table, a cell allocated in this call and the only
    one written. *)
Theorem C10_forward_frame (h : heap) self inputs r (h' : heap) :
  forward self inputs h = Ok (r, h') →
  (∀ l (m : list (list Qc)), h !! l = Some m → h' !! l = Some m) ∧
  h' !! embeddings_weight self = h !! embeddings_weight self ∧
  is_Some (h !! embeddings_weight self) ∧
  ∃ one_hot, h' = h ++ [one_hot].
Proof.
  intros Hrun. destruct (forward_store _ _ _ _ _ Hrun) as [m ->].
  assert (Hw : is_Some (h !! embeddings_weight self)).
  { revert Hrun. unfold forward, mbind, M_bind, bind, load, lift.
    destruct (h !! embeddings_weight self); [eauto|done]. }
  split; [|split; [|split; [done|by exists m]]].
  - intros l c Hl. by apply lookup_app_l_Some.
  - destruct Hw as [W HW]. rewrite HW. by apply lookup_app_l_Some.
Qed.

Lemma C10_witness :
  forward vq_ex z_ex [codebook_ex]
  = Ok ((Fin (Q2Qc (5 # 4)), Tensor [1; 2] [Qc_of_Z 0; Qc_of_Z 0]),
        [codebook_ex; [[Qc_of_Z 1; Qc_of_Z 0; Qc_of_Z 0; Qc_of_Z 0]]]) ∧
  (∀ l (m : list (list Qc)), [codebook_ex] !! l = Some m →
     [codebook_ex; [[Qc_of_Z 1; Qc_of_Z 0; Qc_of_Z 0; Qc_of_Z 0]]] !! l
     = Some m) ∧
  [codebook_ex; [[Qc_of_Z 1; Qc_of_Z 0; Qc_of_Z 0; Qc_of_Z 0]]]
    !! embeddings_weight vq_ex
  = [codebook_ex] !! embeddings_weight vq_ex ∧
  is_Some ([codebook_ex] !! embeddings_weight vq_ex) ∧
  ∃ one_hot,
    [codebook_ex; [[Qc_of_Z 1; Qc_of_Z 0; Qc_of_Z 0; Qc_of_Z 0]]]
    = [codebook_ex] ++ [one_hot].
Proof.
  split; [exact forward_ex|].
  exact (C10_forward_frame [codebook_ex] vq_ex z_ex _ _ forward_ex).
Defined.

(** ** [VectorQuantize.forward] on float32 entries *)

Section Float32.
Import F32.

(** *** Facts on binary32 values *)

Section FloatFacts.

Lemma binary_round_aux_opp s m e l :
  binary_round_aux 24 128 (negb s) m e l
  = SFopp (binary_round_aux 24 128 s m e l).
Proof.
  unfold binary_round_aux.
  destruct (shr_fexp 24 128 m e l) as [mrs' e'].
  destruct (shr_fexp 24 128 _ e' loc_Exact) as [mrs'' e''].
  destruct (shr_m mrs''); [done| |done].
  by destruct (Z.leb e'' _).
Qed.

Lemma binary_round_aux_nonneg m e l :
  nonneg (binary_round_aux 24 128 false m e l) = true.
Proof.
  unfold binary_round_aux.
  destruct (shr_fexp 24 128 m e l) as [mrs' e'].
  destruct (shr_fexp 24 128 _ e' loc_Exact) as [mrs'' e''].
  destruct (shr_m mrs''); [done| |done].
  by destruct (Z.leb e'' _).
Qed.

Lemma binary_round_nonneg m e : nonneg (binary_round 24 128 false m e) = true.
Proof.
  unfold binary_round. destruct (shl_align _ _ _) as [mz ez].
  apply binary_round_aux_nonneg.
Qed.

Lemma binary_round_opp s m e :
  binary_round 24 128 (negb s) m e = SFopp (binary_round 24 128 s m e).
Proof.
  unfold binary_round. destruct (shl_align _ _ _) as [mz ez].
  apply binary_round_aux_opp.
Qed.

Lemma binary_normalize_opp z e :
  z ≠ 0%Z →
  binary_normalize 24 128 (- z) e false
  = SFopp (binary_normalize 24 128 z e false).
Proof.
  destruct z as [|p|p]; intros Hz; [done| |]; simpl.
  - apply (binary_round_opp false).
  - apply (binary_round_opp true).
Qed.

Lemma fmul_opp_opp (d : f32) : fmul (SFopp d) (SFopp d) = fmul d d.
Proof. destruct d as [[]|[]| |[] m e]; done. Qed.

(** [(a - b) ** 2] and [(b - a) ** 2] are the same float. *)
Lemma sq_sub_sym (a b : f32) :
  fmul (fsub a b) (fsub a b) = fmul (fsub b a) (fsub b a).
Proof.
  destruct a as [sa|sa| |sa ma ea], b as [sb|sb| |sb mb eb];
    try (by destruct sa, sb); try (by destruct sa); try (by destruct sb); try done.
  unfold SFsub. rewrite (Z.min_comm eb ea).
  set (A := cond_Zopp sa _). set (C := cond_Zopp sb _).
  destruct (decide (A - C = 0)%Z) as [E|E].
  - replace (C - A)%Z with 0%Z by lia. by rewrite E.
  - replace (C - A)%Z with (- (A - C))%Z by lia.
    rewrite binary_normalize_opp by done. symmetry. apply fmul_opp_opp.
Qed.

Lemma fmul_nonneg a b : nonneg a = true → nonneg b = true → nonneg (fmul a b) = true.
Proof.
  destruct a as [sa|[]| |[] ma ea], b as [sb|[]| |[] mb eb]; try done.
  intros _ _. apply binary_round_aux_nonneg.
Qed.

Lemma fmul_square_nonneg d : nonneg (fmul d d) = true.
Proof.
  destruct d as [s|[]| |[] m e]; try done; apply binary_round_aux_nonneg.
Qed.

Lemma fadd_nonneg a b : nonneg a = true → nonneg b = true → nonneg (fadd a b) = true.
Proof.
  destruct a as [sa|[]| |[] ma ea], b as [sb|[]| |[] mb eb]; try done;
    try (by destruct sa, sb).
  intros _ _. unfold SFadd. simpl cond_Zopp.
  apply binary_round_nonneg.
Qed.

Lemma binary_round_sign_clear m e :
  sign_clear (binary_round 24 128 false m e) = true.
Proof.
  unfold binary_round, binary_round_aux.
  destruct (shl_align _ _ _) as [mz ez].
  destruct (shr_fexp 24 128 _ ez loc_Exact) as [mrs' e'].
  destruct (shr_fexp 24 128 _ e' loc_Exact) as [mrs'' e''].
  destruct (shr_m mrs''); [done| |done].
  by destruct (Z.leb e'' _).
Qed.

Lemma of_Z_sign_clear z : (0 ≤ z)%Z → sign_clear (of_Z z) = true.
Proof.
  destruct z as [|p|p]; [done| |lia]. intros _. apply binary_round_sign_clear.
Qed.

Lemma fdiv_nonneg a b :
  nonneg a = true → sign_clear b = true → nonneg (fdiv a b) = true.
Proof.
  destruct a as [sa|[]| |[] ma ea], b as [[]|[]| |[] mb eb]; try done.
  intros _ _. unfold SFdiv.
  destruct (SFdiv_core_binary _ _ _ _ _ _) as [[mz ez] lz].
  apply binary_round_aux_nonneg.
Qed.

Lemma of_float_nonneg x : nonneg x = true → nonneg (of_float x) = true.
Proof.
  destruct x as [s|s| |[] m e]; try done. intros _. apply binary_round_nonneg.
Qed.

Lemma nonneg_spec x :
  nonneg x = true ↔ is_nan x = true ∨ SFleb (S754_zero false) x = true.
Proof.
  destruct x as [s|[]| |[] m e]; unfold SFleb; simpl;
    (split; [auto|intros [?|?]; done]).
Qed.

(** *** The order of the comparison *)

Lemma SFcompare_key x y :
  is_nan x = false → is_nan y = false →
  match SFcompare x y with
  | Some Lt => lex_lt (key x) (key y)
  | Some Eq => key x = key y
  | Some Gt => lex_lt (key y) (key x)
  | None => False
  end.
Proof.
  unfold lex_lt.
  destruct x as [sx|[]| |[] mx ex], y as [sy|[]| |[] my ey]; intros Hx Hy;
    try discriminate; simpl; try done; try lia.
  - destruct (Z.compare_spec ex ey); [|lia|lia]. subst.
    rewrite Pos.compare_cont_spec; simpl.
    destruct (Pos.compare_spec mx my); simpl; [by subst|lia|lia].
  - destruct (Z.compare_spec ex ey); [|lia|lia]. subst.
    rewrite Pos.compare_cont_spec; simpl.
    destruct (Pos.compare_spec mx my); simpl; [by subst|lia|lia].
Qed.

Lemma SFltb_key x y :
  is_nan x = false → is_nan y = false →
  SFltb x y = true ↔ lex_lt (key x) (key y).
Proof.
  intros Hx Hy. pose proof (SFcompare_key x y Hx Hy) as H. unfold SFltb.
  destruct (SFcompare x y) as [[]|]; [| | |done]; split; try done.
  - intros Hlt. rewrite H in Hlt. unfold lex_lt in Hlt. lia.
  - unfold lex_lt in *. lia.
Qed.

Lemma SFleb_key x y :
  is_nan x = false → is_nan y = false →
  SFleb x y = true ↔ lex_le (key x) (key y).
Proof.
  intros Hx Hy. pose proof (SFcompare_key x y Hx Hy) as H. unfold SFleb, lex_le.
  destruct (SFcompare x y) as [[]|]; [| | |done]; split; auto; try done.
  intros [Hlt|Heq]; unfold lex_lt in *; [lia|]. rewrite Heq in H. lia.
Qed.

Lemma lex_lt_le_trans a b c : lex_lt a b → lex_le b c → lex_lt a c.
Proof.
  intros Hab [Hbc| ->]; [|done]. unfold lex_lt in *. lia.
Qed.

Lemma lex_not_lt_le a b : ¬ lex_lt a b → lex_le b a.
Proof.
  unfold lex_le, lex_lt. destruct a as [[a1 a2] a3], b as [[b1 b2] b3]; simpl.
  intros H.
  destruct (decide (b1 = a1 ∧ b2 = a2 ∧ b3 = a3)) as [(-> & -> & ->)|Hne];
    [by right|left; lia].
Qed.

(** *** Zeros, and the factor one *)

Lemma same_value_refl a : same_value a a.
Proof. by left. Qed.

Lemma same_value_sq_sub_l a b x :
  same_value a b → fmul (fsub a x) (fsub a x) = fmul (fsub b x) (fsub b x).
Proof.
  intros [->|(s & s' & -> & ->)]; [done|].
  destruct x as [[]|[]| |[] m e], s, s'; reflexivity.
Qed.

Lemma same_value_sq_sub_r a b x :
  same_value a b → fmul (fsub x a) (fsub x a) = fmul (fsub x b) (fsub x b).
Proof.
  intros [->|(s & s' & -> & ->)]; [done|].
  destruct x as [[]|[]| |[] m e], s, s'; reflexivity.
Qed.

Lemma same_value_add_sub a b x :
  same_value a b → fadd x (fsub a x) = fadd x (fsub b x).
Proof.
  intros [->|(s & s' & -> & ->)]; [done|].
  destruct x as [[]|[]| |[] m e], s, s'; reflexivity.
Qed.

Lemma fmul_zero_l x :
  finite x = true → ∃ s, fmul (S754_zero false) x = S754_zero s.
Proof. destruct x as [s|s| |s m e]; try done; intros _; by eexists. Qed.

Lemma fmul_one_l x : finite x = true → fmul (of_Z 1) x = x.
Proof.
  destruct x as [s|s| |s m e]; try done.
  unfold finite, bounded, canonical_mantissa. intros Hb.
  apply andb_prop in Hb as [Hc He]. apply Z.eqb_eq in Hc. apply Z.leb_le in He.
  change (of_Z 1) with (S754_finite false 8388608 (-23)).
  unfold SFmul. change (xorb false s) with s.
  change (Z.pos (8388608 * m))
    with (Z.pos m~0~0~0~0~0~0~0~0~0~0~0~0~0~0~0~0~0~0~0~0~0~0~0).
  set (big := Z.pos m~0~0~0~0~0~0~0~0~0~0~0~0~0~0~0~0~0~0~0~0~0~0~0).
  set (r := {| shr_m := Z.pos m; shr_r := false; shr_s := false |}).
  assert (H1 : shr_fexp 24 128 big (-23 + e) loc_Exact = (r, e)).
  { unfold shr_fexp.
    replace (fexp 24 128 (Zdigits2 big + (-23 + e)) - (-23 + e))%Z
      with 23%Z
      by (unfold big, fexp, emin in *; simpl Zdigits2; lia).
    unfold shr. f_equal. lia. }
  assert (H2 : shr_fexp 24 128 (Z.pos m) e loc_Exact = (r, e)).
  { unfold shr_fexp.
    replace (fexp 24 128 (Zdigits2 (Z.pos m) + e) - e)%Z with 0%Z
      by (unfold fexp, emin in *; simpl Zdigits2; lia).
    done. }
  unfold binary_round_aux. rewrite H1.
  change (round_nearest_even (shr_m r) (loc_of_shr_record r)) with (Z.pos m).
  rewrite H2. simpl. by rewrite (proj2 (Z.leb_le _ _) He).
Qed.

Lemma fadd_zero_zero s s' : ∃ s'', fadd (S754_zero s) (S754_zero s') = S754_zero s''.
Proof. destruct s, s'; by eexists. Qed.

Lemma fadd_zero_l s x : finite x = true → same_value (fadd (S754_zero s) x) x.
Proof.
  destruct x as [s'|s'| |s' m e]; try done; intros _; [|by left].
  right. destruct (fadd_zero_zero s s') as [s'' ->]. eauto.
Qed.

Lemma fadd_zero_r s x : finite x = true → same_value (fadd x (S754_zero s)) x.
Proof.
  destruct x as [s'|s'| |s' m e]; try done; intros _; [|by left].
  right. destruct (fadd_zero_zero s' s) as [s'' ->]. eauto.
Qed.

(** *** Results that are numbers *)

Lemma shr_1_nonneg mrs : (0 ≤ shr_m mrs)%Z → (0 ≤ shr_m (shr_1 mrs))%Z.
Proof. destruct mrs as [[|[p|p|]|[p|p|]] r s]; simpl; lia. Qed.

Lemma iter_pos_shr_nonneg p : ∀ mrs,
  (0 ≤ shr_m mrs)%Z → (0 ≤ shr_m (SpecFloat.iter_pos shr_1 p mrs))%Z.
Proof.
  induction p as [p IH|p IH|]; intros mrs H; simpl; auto using shr_1_nonneg.
Qed.

Lemma shr_fexp_nonneg m e l :
  (0 ≤ m)%Z → (0 ≤ shr_m (shr_fexp 24 128 m e l).1)%Z.
Proof.
  intros Hm. unfold shr_fexp, shr.
  assert (0 ≤ shr_m (shr_record_of_loc m l))%Z by (by destruct l as [|[]]).
  destruct (_ - e)%Z; simpl; [done| |done]. by apply iter_pos_shr_nonneg.
Qed.

(** Rounding a mantissa that is not negative gives a number. *)
Lemma binary_round_aux_number s m e l :
  (0 ≤ m)%Z → binary_round_aux 24 128 s m e l ≠ S754_nan.
Proof.
  intros Hm. unfold binary_round_aux.
  pose proof (shr_fexp_nonneg m e l Hm) as H1.
  destruct (shr_fexp 24 128 m e l) as [mrs' e']. simpl in H1.
  assert (H2 : (0 ≤ round_nearest_even (shr_m mrs') (loc_of_shr_record mrs'))%Z).
  { destruct (loc_of_shr_record mrs') as [|[]]; simpl; try lia.
    destruct (Z.even _); lia. }
  pose proof (shr_fexp_nonneg _ e' loc_Exact H2) as H3.
  destruct (shr_fexp 24 128 _ e' loc_Exact) as [mrs'' e'']. simpl in H3.
  destruct (shr_m mrs''); [done| |lia]. by destruct (Z.leb _ _).
Qed.

Lemma binary_round_number s m e : binary_round 24 128 s m e ≠ S754_nan.
Proof.
  unfold binary_round. destruct (shl_align _ _ _).
  by apply binary_round_aux_number.
Qed.

(** Among values that are not negative, a product is nan only as 0 * inf,
    and a sum never. *)
Lemma fmul_nan a b :
  nonneg a = true → nonneg b = true →
  fmul a b = S754_nan ↔
    a = S754_nan ∨ b = S754_nan ∨
    ((∃ s, a = S754_zero s) ∧ b = S754_infinity false) ∨
    (a = S754_infinity false ∧ ∃ s, b = S754_zero s).
Proof.
  destruct a as [sa|[]| |[] ma ea], b as [sb|[]| |[] mb eb]; try done;
    intros _ _;
    (split;
     [intros H;
      first [discriminate H | by apply binary_round_aux_number in H | eauto 8]
     |intros [H|[H|[[[s H] H']|[H [s H']]]]]; first [done|discriminate]]).
Qed.

Lemma fadd_nan a b :
  nonneg a = true → nonneg b = true →
  fadd a b = S754_nan ↔ a = S754_nan ∨ b = S754_nan.
Proof.
  destruct a as [sa|[]| |[] ma ea], b as [sb|[]| |[] mb eb]; try done;
    intros _ _;
    (split; [intros H|intros [H|H]; first [done|discriminate]]); auto.
  - by destruct sa, sb.
  - unfold SFadd in H. simpl cond_Zopp in H.
    by apply binary_round_number in H.
Qed.

Lemma of_float_number x : x ≠ S754_nan → of_float x ≠ S754_nan.
Proof. destruct x as [s|s| |s m e]; try done. intros _. apply binary_round_number. Qed.

End FloatFacts.

(** *** Blocks, tables and the assignment *)

Section TableFacts.
Context {B : Backend}.

Lemma rows_length_f n d l : length (rows n d l) = n.
Proof. revert l; induction n as [|n IH]; intros l; simpl; [done|]. by rewrite IH. Qed.

Lemma rows_rect_f n d l : length l = (n * d)%nat → rect d (rows n d l).
Proof.
  revert l; induction n as [|n IH]; intros l Hl; simpl; constructor.
  - rewrite length_take. lia.
  - apply IH. rewrite length_drop. lia.
Qed.

Lemma nth_seq_f (l : list f32) (a : f32) :
  (λ i, nth i l a) <$> seq 0 (length l) = l.
Proof.
  apply list_eq; intros i. rewrite list_lookup_fmap.
  destruct (decide (i < length l)%nat) as [Hi|Hi].
  - rewrite lookup_seq_lt by done. simpl.
    destruct (lookup_lt_is_Some_2 l i Hi) as [x Hx].
    by rewrite (nth_lookup_Some _ _ _ _ Hx), Hx.
  - rewrite lookup_seq_ge, lookup_ge_None_2 by lia. done.
Qed.

Lemma zip_with_fmap_f {A C D E} (f : C → D → E) (g : A → C) (k : A → D)
    (l : list A) :
  zip_with f (g <$> l) (k <$> l) = (λ a, f (g a) (k a)) <$> l.
Proof. induction l as [|a l IH]; csimpl; [done|]. by rewrite IH. Qed.

Lemma ncols_rect_f d W : rect d W → W ≠ [] → ncols W = d.
Proof. destruct 1; [done|]. done. Qed.

Lemma transpose_length_f W : length (transpose W) = ncols W.
Proof. unfold transpose. by rewrite length_fmap, length_seq. Qed.

Lemma nth_column_f (W : matrix) j c :
  (j < length W)%nat →
  nth j ((λ r, nth c r (S754_zero false)) <$> W) (S754_zero false)
  = nth c (nth j W []) (S754_zero false).
Proof.
  intros Hj. destruct (lookup_lt_is_Some_2 W j Hj) as [r Hr].
  rewrite (nth_lookup_Some _ _ _ _ Hr).
  apply nth_lookup_Some. by rewrite list_lookup_fmap, Hr.
Qed.

Lemma transpose_transpose_f d W :
  rect d W → W ≠ [] → (0 < d)%nat → transpose (transpose W) = W.
Proof.
  intros Hr Hne Hd. pose proof (ncols_rect_f d W Hr Hne) as Hc.
  assert (Hc' : ncols (transpose W) = length W).
  { unfold transpose. rewrite Hc. destruct d; [lia|].
    simpl. by rewrite length_fmap. }
  apply list_eq; intros j.
  destruct (decide (j < length W)%nat) as [Hj|Hj].
  - unfold transpose at 1. rewrite list_lookup_fmap, lookup_seq_lt by lia.
    destruct (lookup_lt_is_Some_2 W j Hj) as [r Hjr]. rewrite Hjr. simpl. f_equal.
    unfold transpose. rewrite Hc, <-list_fmap_compose.
    rewrite <-(nth_seq_f r (S754_zero false)) at 1.
    rewrite (Forall_lookup_1 _ _ _ _ Hr Hjr).
    apply list_fmap_ext; intros k c Hk; simpl.
    rewrite nth_column_f by done. by rewrite (nth_lookup_Some _ _ _ _ Hjr).
  - rewrite !lookup_ge_None_2; [done|lia|]. rewrite transpose_length_f. lia.
Qed.

(** Every entry of the table is the expansion for its pair of rows. *)
Lemma distance_entries_f d (X W : matrix) :
  rect d W → W ≠ [] → (0 < d)%nat →
  distance X W = (λ x, expansion x <$> W) <$> X.
Proof.
  intros Hr Hne Hd. unfold distance, msub, mscale, matmul, broadcast_add, sum_dim1.
  rewrite (transpose_transpose_f d W) by done.
  rewrite <-!list_fmap_compose, zip_with_fmap_f.
  apply list_fmap_ext; intros _ x _; simpl.
  rewrite <-!list_fmap_compose, zip_with_fmap_f. done.
Qed.

(** *** [argmin] *)

Lemma argmin_from_lt l : ∀ bi i,
  (bi < i)%nat → (argmin_from bi (S754_zero false) i l < i + length l)%nat
  ∧ ∀ b, (argmin_from bi b i l < i + length l)%nat.
Proof.
  induction l as [|v l IH]; intros bi i Hbi; simpl; [split; [|intros _]; lia|].
  split; [|intros b]; destruct (less_or_nan _ _);
    (destruct (IH i (S i)) as [_ H]; [lia|]);
    (destruct (IH bi (S i)) as [_ H']; [lia|]);
    first [specialize (H v); lia | specialize (H' (S754_zero false)); lia
          | specialize (H' b); lia].
Qed.

Lemma argmin_lt l i : argmin l = Some i → (i < length l)%nat.
Proof.
  destruct l as [|v l]; intros Hi; simplify_eq/=.
  destruct (argmin_from_lt l 0 1) as [_ H]; [lia|]. specialize (H v). lia.
Qed.

Lemma SFleb_number a b :
  SFleb a b = true → is_nan a = false ∧ is_nan b = false.
Proof. destruct a as [?|?| |? ? ?], b as [?|?| |? ? ?]; by intros. Qed.

Lemma is_nan_false x : is_nan x = false ↔ x ≠ S754_nan.
Proof. by destruct x. Qed.

Lemma argmin_from_first l : ∀ pre bi b,
  pre !! bi = Some b →
  (b = S754_nan →
   ∀ j v, pre !! j = Some v → (j < bi)%nat → v ≠ S754_nan) →
  (b ≠ S754_nan →
   ∀ j v, pre !! j = Some v →
     SFleb b v = true ∧ ((j < bi)%nat → SFltb b v = true)) →
  ∃ m, (pre ++ l) !! argmin_from bi b (length pre) l = Some m ∧
    (m = S754_nan →
     ∀ j v, (pre ++ l) !! j = Some v →
       (j < argmin_from bi b (length pre) l)%nat → v ≠ S754_nan) ∧
    (m ≠ S754_nan →
     ∀ j v, (pre ++ l) !! j = Some v →
       SFleb m v = true ∧
       ((j < argmin_from bi b (length pre) l)%nat → SFltb m v = true)).
Proof.
  induction l as [|v l IH]; intros pre bi b Hb Hfirst Hmin; simpl.
  - rewrite app_nil_r. eauto.
  - assert (Hlen : length (pre ++ [v]) = S (length pre))
      by (rewrite length_app; simpl; lia).
    assert (Hbi : (bi < length pre)%nat) by (by eapply lookup_lt_Some).
    replace (pre ++ v :: l) with ((pre ++ [v]) ++ l) in * by (by rewrite <-app_assoc).
    rewrite <-Hlen. unfold less_or_nan.
    destruct (is_nan b) eqn:Hnb.
    { assert (b = S754_nan) as -> by (by destruct b).
      apply IH; [by rewrite lookup_app_l| |done].
      intros _ j w Hj Hlt. rewrite lookup_app_l in Hj by lia.
      by apply (Hfirst eq_refl j w). }
    apply is_nan_false in Hnb. specialize (Hmin Hnb).
    assert (Hnp : ∀ j w, pre !! j = Some w → is_nan w = false).
    { intros j w Hj. destruct (Hmin j w Hj) as [Hle _].
      by apply SFleb_number in Hle as [_ ?]. }
    apply is_nan_false in Hnb.
    destruct (is_nan v) eqn:Hnv.
    { assert (v = S754_nan) as -> by (by destruct v).
      apply IH; [by rewrite lookup_app_r, Nat.sub_diag| |done].
      intros _ j w Hj Hlt. rewrite lookup_app_l in Hj by lia.
      apply is_nan_false. by apply (Hnp j). }
    destruct (SFltb v b) eqn:Hv.
    + apply IH; [by rewrite lookup_app_r, Nat.sub_diag
                |by intros ->|intros _].
      intros j w Hj. destruct (decide (j < length pre)%nat) as [Hlt|Hge].
      * rewrite lookup_app_l in Hj by done. destruct (Hmin j w Hj) as [Hle _].
        pose proof (Hnp j w Hj) as Hnw.
        apply SFltb_key in Hv; [|done..]. apply SFleb_key in Hle; [|done..].
        pose proof (lex_lt_le_trans _ _ _ Hv Hle) as Hlt'.
        split; [apply SFleb_key; [done..|by left]|intros _; by apply SFltb_key].
      * rewrite lookup_app_r in Hj by lia.
        destruct (j - length pre)%nat eqn:E; simplify_eq/=.
        split; [apply SFleb_key; [done..|by right]|lia].
    + apply IH; [by rewrite lookup_app_l
                |by intros ->|intros _].
      intros j w Hj. destruct (decide (j < length pre)%nat) as [Hlt|Hge].
      * rewrite lookup_app_l in Hj by done. by apply Hmin.
      * rewrite lookup_app_r in Hj by lia.
        destruct (j - length pre)%nat eqn:E; simplify_eq/=.
        split; [|lia]. apply SFleb_key; [done..|].
        apply lex_not_lt_le. intros Hlt. apply SFltb_key in Hlt; [|done..].
        congruence.
Qed.

Lemma argmin_first_least l i : argmin l = Some i → first_least l i.
Proof.
  intros Hi. destruct l as [|v l]; simplify_eq/=.
  apply (argmin_from_first l [v] 0%nat v); [done|intros; lia|].
  intros Hv [|j] w Hj; simplify_eq/=. split; [|lia].
  apply is_nan_false in Hv. apply SFleb_key; [done..|by right].
Qed.

Lemma selected_spec_f d (X W : matrix) :
  rect d W → W ≠ [] → (0 < d)%nat →
  ∃ idx, selected_e_index X W = Some (unsqueeze1 idx) ∧
         Forall2 (λ x i, first_least (expansion x <$> W) i) X idx.
Proof.
  intros Hr Hne Hd. unfold selected_e_index, argmin_dim1.
  rewrite decide_False by (by destruct W).
  rewrite (distance_entries_f d) by done.
  enough (∃ idx, mapM argmin ((λ x, expansion x <$> W) <$> X) = Some idx ∧
            Forall2 (λ x i, first_least (expansion x <$> W) i) X idx)
    as (idx & -> & ?) by (by exists idx).
  induction X as [|x X IH].
  - exists []. split; [done|constructor].
  - destruct IH as (idx & Hidx & Hall).
    destruct (argmin (expansion x <$> W)) as [i|] eqn:Hi; [|by destruct W].
    exists (i :: idx). split.
    + rewrite fmap_cons. apply mapM_Some_2. constructor; [done|].
      by apply mapM_Some_1.
    + constructor; [by apply argmin_first_least|done].
Qed.

(** *** The one-hot table and the selection product *)

Lemma scatter_rows_f K (idx : list nat) (v : f32) :
  Forall (λ i, i < K)%nat idx →
  scatter_ (zeros (length idx) K) (unsqueeze1 idx) v
  = Some ((λ i, <[i := v]> (replicate K (S754_zero false))) <$> idx).
Proof.
  unfold zeros.
  induction 1 as [|i idx Hi _ IH]; [done|]. csimpl.
  rewrite decide_True by (by rewrite length_replicate).
  csimpl. by rewrite IH.
Qed.

Lemma scatter_one_hot_f K (idx : list nat) :
  Forall (λ i, i < K)%nat idx →
  scatter_ (zeros (length idx) K) (unsqueeze1 idx) (of_Z 1)
  = Some (one_hot_row K <$> idx).
Proof. apply scatter_rows_f. Qed.

Lemma select_rect_f d (W : matrix) idx :
  rect d W → Forall (λ i, i < length W)%nat idx → rect d (select W idx).
Proof.
  intros Hr Hidx. unfold rect, select. rewrite Forall_fmap.
  apply Forall_forall; intros i Hin; simpl.
  pose proof (proj1 (Forall_forall _ _) Hidx i Hin) as Hi; simpl in Hi.
  destruct (lookup_lt_is_Some_2 W i Hi) as [w Hw].
  rewrite (nth_lookup_Some _ _ _ _ Hw). by eapply (Forall_lookup_1 _ _ _ _ Hr).
Qed.

Lemma concat_rect_length_f d (m : matrix) :
  rect d m → length (concat m) = (length m * d)%nat.
Proof.
  induction 1 as [|r m Hr _ IH]; [done|]. simpl. rewrite length_app. lia.
Qed.

Lemma matmul_rect_f d (A W : matrix) :
  rect d W → W ≠ [] → rect d (matmul A W).
Proof.
  intros Hr Hne. unfold rect, matmul. rewrite Forall_fmap.
  apply Forall_true; intros a; simpl.
  by rewrite length_fmap, transpose_length_f, (ncols_rect_f d).
Qed.

(** With a backend that selects, the product of the one-hot table with a
    codebook of numbers is, entry by entry, the table of the rows
    selected. *)
Lemma matmul_one_hot_f d (W : matrix) (idx : list nat) :
  selects B →
  rect d W → W ≠ [] → Forall (Forall (λ v, finite v = true)) W →
  Forall (λ i, i < length W)%nat idx →
  Forall2 (Forall2 same_value)
    (matmul (one_hot_row (length W) <$> idx) W) (select W idx).
Proof.
  intros Hsel Hr Hne Hfin Hidx. unfold matmul, select.
  rewrite <-list_fmap_compose. apply Forall2_fmap, Forall_Forall2_diag.
  revert Hidx. apply Forall_impl. intros i Hi; simpl.
  destruct (lookup_lt_is_Some_2 W i Hi) as [w Hw].
  rewrite (nth_lookup_Some _ _ _ _ Hw).
  unfold transpose. rewrite (ncols_rect_f d W Hr Hne), <-list_fmap_compose.
  rewrite <-(nth_seq_f w (S754_zero false)) at 1.
  rewrite (Forall_lookup_1 _ _ _ _ Hr Hw).
  apply Forall2_fmap, Forall_Forall2_diag, Forall_forall. intros c Hc; simpl.
  rewrite <-(length_fmap (λ r, nth c r (S754_zero false)) W) at 1.
  apply Hsel.
  - rewrite list_lookup_fmap, Hw. done.
  - rewrite Forall_fmap. revert Hfin. apply Forall_impl. intros r Hfr; simpl.
    destruct (decide (c < length r)%nat) as [Hlt|Hge].
    + destruct (lookup_lt_is_Some_2 r c Hlt) as [v Hv].
      rewrite (nth_lookup_Some _ _ _ _ Hv).
      by apply (Forall_lookup_1 _ _ _ _ Hfr Hv).
    + by rewrite nth_overflow by lia.
Qed.

End TableFacts.

(** *** The backend that accumulates in index order *)

Section Sequential.

Lemma foldl_zero_products (n : nat) : ∀ (col : list f32) (acc w : f32),
  finite w = true → same_value acc w → Forall (λ v, finite v = true) col →
  same_value
    (foldl fadd acc (zip_with fmul (replicate n (S754_zero false)) col)) w.
Proof.
  induction n as [|n IH]; intros [|c col] acc w Hw Hacc Hcol; try done.
  inversion_clear Hcol as [|?? Hc Hcol'].
  cbn [replicate zip_with foldl]. apply IH; [done| |done].
  destruct (fmul_zero_l c Hc) as [s ->].
  destruct Hacc as [->|(s1 & s2 & -> & ->)].
  - by apply fadd_zero_r.
  - right. destruct (fadd_zero_zero s1 s) as [s3 ->]. eauto.
Qed.

Lemma sequential_selects : selects sequential.
Proof.
  intros col i w Hi Hcol. cbn [dot_k sequential]. unfold one_hot_row.
  assert (Hgen : ∀ s, same_value
            (foldl fadd (S754_zero s)
               (zip_with fmul
                  (<[i := of_Z 1]> (replicate (length col) (S754_zero false)))
                  col)) w); [|apply Hgen].
  revert i Hi. induction Hcol as [|c col Hc Hcol IH]; intros i Hi s; [done|].
  destruct i as [|i].
  - change (<[0%nat := of_Z 1]> (replicate (length (c :: col)) (S754_zero false)))
      with (of_Z 1 :: replicate (length col) (S754_zero false)).
    cbn [zip_with foldl].
    injection Hi as ->. rewrite fmul_one_l by done.
    apply foldl_zero_products; [done|by apply fadd_zero_l|done].
  - change (<[S i := of_Z 1]> (replicate (length (c :: col)) (S754_zero false)))
      with (S754_zero false
              :: <[i := of_Z 1]> (replicate (length col) (S754_zero false))).
    cbn [zip_with foldl].
    destruct (fmul_zero_l c Hc) as [s1 ->].
    destruct (fadd_zero_zero s s1) as [s2 ->]. by apply IH.
Qed.

Lemma foldl_fadd_nonneg (l : list f32) : ∀ acc,
  nonneg acc = true → Forall (λ v, nonneg v = true) l →
  nonneg (foldl fadd acc l) = true.
Proof.
  induction l as [|v l IH]; intros acc Hacc Hl; [done|].
  inversion_clear Hl. simpl. apply IH; [by apply fadd_nonneg|done].
Qed.

Lemma sequential_mean_sign : mean_sign sequential.
Proof.
  intros l Hl. simpl. apply fdiv_nonneg.
  - by apply foldl_fadd_nonneg.
  - apply of_Z_sign_clear. lia.
Qed.

End Sequential.

(** *** One run of [forward] *)

Section ForwardF32.
Context {B : Backend} (self : VectorQuantize) (inputs : tensor).
Hypothesis Hvq : wf_vq self.
Hypothesis Hx : wf_tensor inputs.
Hypothesis Hd : 0 < embeddings_dim self.
Hypothesis Hdiv : numel inputs `mod` embeddings_dim self = 0.

Lemma view2_run_f :
  view2 inputs (embeddings_dim self)
  = Some (rows (numel inputs `div` embeddings_dim self) (embeddings_dim self)
            (data inputs)).
Proof. unfold view2. rewrite decide_False by lia. by rewrite decide_True. Qed.

Lemma numel_blocks_f :
  length (data inputs)
  = numel inputs `div` embeddings_dim self * embeddings_dim self.
Proof. rewrite Hx. apply Nat.Div0.div_exact in Hdiv. lia. Qed.

(** The run, step by step: the flattened rows [X], the assigned positions
    [idx], and the pair returned, with [e] the product of the one-hot
    table and the codebook. *)
Lemma forward_run_f :
  ∃ X idx,
    view2 inputs (embeddings_dim self) = Some X ∧
    selected_e_index X (embeddings_weight self) = Some (unsqueeze1 idx) ∧
    Forall2 (λ x i, first_least (expansion x <$> embeddings_weight self) i)
      X idx ∧
    Forall (λ i, i < length (embeddings_weight self)) idx ∧
    let e := concat (matmul (one_hot_row (num_embeddings self) <$> idx)
                       (embeddings_weight self)) in
    length e = length (data inputs) ∧
    length (concat (select (embeddings_weight self) idx))
    = length (data inputs) ∧
    forward self inputs
    = Ok (fadd (fmul (of_float (commitment_cost self))
                  (mean_k (pow2 (zip_with fsub e (data inputs)))))
               (mean_k (pow2 (zip_with fsub (data inputs) e))),
          Tensor (shape inputs)
            (zip_with fadd (data inputs) (zip_with fsub e (data inputs)))).
Proof.
  destruct Hvq as (HK & Hrect & Hpos).
  set (W := embeddings_weight self) in *.
  assert (HWne : W ≠ []) by (intros E; rewrite E in HK; simpl in HK; lia).
  pose proof numel_blocks_f as Hlen.
  set (N := numel inputs `div` embeddings_dim self) in *.
  set (X := rows N (embeddings_dim self) (data inputs)).
  destruct (selected_spec_f (embeddings_dim self) X W) as (idx & Hsel & Hleast);
    [done..|].
  assert (Hidx : Forall (λ i, i < length W) idx).
  { apply (Forall2_Forall_r _ _ _ _ Hleast), Forall_true.
    intros x i (m & Hi & _). apply lookup_lt_Some in Hi.
    by rewrite length_fmap in Hi. }
  assert (HN : length idx = N).
  { pose proof Hleast as Hl. apply Forall2_length in Hl.
    rewrite <-Hl. apply rows_length_f. }
  assert (He : length (concat (matmul (one_hot_row (num_embeddings self) <$> idx) W))
               = length (data inputs)).
  { rewrite (concat_rect_length_f (embeddings_dim self))
      by (by apply matmul_rect_f).
    unfold matmul. rewrite !length_fmap. lia. }
  assert (Hs : length (concat (select W idx)) = length (data inputs)).
  { rewrite (concat_rect_length_f (embeddings_dim self))
      by (by apply select_rect_f).
    unfold select. rewrite length_fmap. lia. }
  exists X, idx. split; [apply view2_run_f|]. do 3 (split; [done|]).
  split; [done|]. split; [done|].
  unfold forward. fold W. rewrite view2_run_f. fold N X. simpl.
  rewrite Hsel. simpl.
  unfold unsqueeze1 at 1. rewrite length_fmap. rewrite <-HK.
  rewrite scatter_one_hot_f by done. simpl.
  unfold view_as. rewrite decide_True by (by rewrite HK, He, Hx).
  simpl. rewrite HK. done.
Qed.

End ForwardF32.

(** The squared differences and the latent, entry by entry, do not change
    when an entry of [e] is replaced by a zero of the other sign. *)
Lemma sq_diff_same_l (es ss : list f32) : ∀ xs,
  Forall2 same_value es ss →
  pow2 (zip_with fsub es xs) = zip_with sq_diff ss xs.
Proof.
  intros xs H. revert xs. induction H as [|e s es ss Hes _ IH]; intros [|x xs];
    try done.
  unfold pow2 in *. csimpl. f_equal; [|apply IH].
  by apply same_value_sq_sub_l.
Qed.

Lemma sq_diff_same_r (es ss : list f32) : ∀ xs,
  Forall2 same_value es ss →
  pow2 (zip_with fsub xs es) = zip_with sq_diff xs ss.
Proof.
  intros xs H. revert xs. induction H as [|e s es ss Hes _ IH]; intros [|x xs];
    try done.
  unfold pow2 in *. csimpl. f_equal; [|apply IH].
  by apply same_value_sq_sub_r.
Qed.

Lemma straight_through_same (es ss : list f32) : ∀ xs,
  Forall2 same_value es ss →
  zip_with fadd xs (zip_with fsub es xs) = zip_with through xs ss.
Proof.
  intros xs H. revert xs. induction H as [|e s es ss Hes _ IH]; intros [|x xs];
    try done.
  csimpl. f_equal; [|apply IH]. by apply same_value_add_sub.
Qed.

Lemma Forall2_concat_f {A C} (P : A → C → Prop) ls ks :
  Forall2 (Forall2 P) ls ks → Forall2 P (concat ls) (concat ks).
Proof. induction 1; simpl; [constructor|by apply Forall2_app]. Qed.

Lemma sq_diff_sym_list (a b : list f32) :
  zip_with sq_diff a b = zip_with sq_diff b a.
Proof.
  revert b; induction a as [|x a IH]; intros [|y b]; try done.
  csimpl. f_equal; [apply sq_sub_sym|apply IH].
Qed.

Lemma through_exact (x w : f32) :
  finite w = true → x = w ∨ (∃ s, x = S754_zero s) →
  same_value (through x w) w.
Proof.
  unfold through. intros Hw Hxw.
  assert (Hz : ∀ s, same_value (fadd (S754_zero s) (fsub w (S754_zero s))) w).
  { intros s. destruct w as [s'|s'| |s' m e]; try done.
    - right. destruct s, s'; eauto.
    - by left. }
  destruct Hxw as [->|[s ->]]; [|apply Hz].
  destruct w as [s'|s'| |s' m e]; try done. left.
  unfold SFsub. rewrite Z.sub_diag. done.
Qed.

(** The run in terms of the product of the one-hot table and the
    codebook. *)
Lemma forward_product_f {B : Backend} self inputs :
  wf_vq self →
  wf_tensor inputs →
  0 < embeddings_dim self →
  numel inputs `mod` embeddings_dim self = 0 →
  ∃ X idx,
    view2 inputs (embeddings_dim self) = Some X ∧
    selected_e_index X (embeddings_weight self) = Some (unsqueeze1 idx) ∧
    let e := concat (matmul (one_hot_row (num_embeddings self) <$> idx)
                       (embeddings_weight self)) in
    length e = length (data inputs) ∧
    forward self inputs
    = Ok (fadd (fmul (of_float (commitment_cost self))
                  (mean_k (zip_with sq_diff e (data inputs))))
               (mean_k (zip_with sq_diff (data inputs) e)),
          Tensor (shape inputs) (zip_with through (data inputs) e)).
Proof.
  intros Hvq Hx Hd Hdiv.
  destruct (forward_run_f self inputs Hvq Hx Hd Hdiv)
    as (X & idx & HX & Hidx & _ & _ & He & _ & Hrun).
  exists X, idx. do 2 (split; [done|]). cbv zeta. split; [done|].
  rewrite Hrun.
  set (e := concat _).
  assert (Hsame : Forall2 same_value e e).
  { apply Forall_Forall2_diag, Forall_true, same_value_refl. }
  by rewrite (sq_diff_same_l _ _ _ Hsame), (sq_diff_same_r _ _ _ Hsame),
    (straight_through_same _ _ _ Hsame).
Qed.

(** With a backend that selects and a codebook of numbers, the run in
    terms of the codebook rows selected. *)
Lemma forward_selected_f {B : Backend} self inputs :
  selects B →
  wf_vq self →
  Forall (Forall (λ v, finite v = true)) (embeddings_weight self) →
  wf_tensor inputs →
  0 < embeddings_dim self →
  numel inputs `mod` embeddings_dim self = 0 →
  ∃ X idx,
    view2 inputs (embeddings_dim self) = Some X ∧
    selected_e_index X (embeddings_weight self) = Some (unsqueeze1 idx) ∧
    Forall2 (λ i r, embeddings_weight self !! i = Some r) idx
      (select (embeddings_weight self) idx) ∧
    let selected := concat (select (embeddings_weight self) idx) in
    length selected = length (data inputs) ∧
    Forall (λ v, finite v = true) selected ∧
    forward self inputs
    = Ok (fadd (fmul (of_float (commitment_cost self))
                  (mean_k (zip_with sq_diff selected (data inputs))))
               (mean_k (zip_with sq_diff (data inputs) selected)),
          Tensor (shape inputs) (zip_with through (data inputs) selected)).
Proof.
  intros Hsel Hvq Hfin Hx Hd Hdiv.
  destruct (forward_run_f self inputs Hvq Hx Hd Hdiv)
    as (X & idx & HX & Hidx & _ & Hlt & He & Hs & Hrun).
  destruct Hvq as (HK & Hrect & Hpos).
  set (W := embeddings_weight self) in *.
  assert (HWne : W ≠ []) by (intros E; rewrite E in HK; simpl in HK; lia).
  assert (Hrows : Forall2 (λ i r, W !! i = Some r) idx (select W idx)).
  { unfold select. apply Forall2_fmap_r, Forall_Forall2_diag.
    revert Hlt. apply Forall_impl. intros i Hi; simpl.
    destruct (lookup_lt_is_Some_2 W i Hi) as [w Hw].
    by rewrite (nth_lookup_Some _ _ _ _ Hw). }
  assert (Hsame : Forall2 same_value
            (concat (matmul (one_hot_row (num_embeddings self) <$> idx) W))
            (concat (select W idx))).
  { apply Forall2_concat_f. rewrite <-HK.
    by apply (matmul_one_hot_f (embeddings_dim self)). }
  assert (Hsfin : Forall (λ v, finite v = true) (concat (select W idx))).
  { apply Forall_concat. apply (Forall2_Forall_r _ _ _ _ Hrows), Forall_true.
    intros i r Hr. by apply (Forall_lookup_1 _ _ _ _ Hfin Hr). }
  exists X, idx. do 3 (split; [done|]). cbv zeta. do 2 (split; [done|]).
  rewrite Hrun.
  by rewrite (sq_diff_same_l _ _ _ Hsame), (sq_diff_same_r _ _ _ Hsame),
    (straight_through_same _ _ _ Hsame).
Qed.

Lemma wf_vq_ex_f : wf_vq vq_ex.
Proof. split; [done|]. split; [repeat constructor|simpl; lia]. Qed.

Lemma codebook_ex_finite :
  Forall (Forall (λ v, finite v = true)) (embeddings_weight vq_ex).
Proof. repeat constructor. Qed.

Lemma forward_ex_f :
  forward (B := sequential) vq_ex z_ex
  = Ok (num_1_25, Tensor [1; 2] [S754_zero false; S754_zero false]).
Proof. by vm_compute. Qed.

(** *** Properties of [forward] that depend on the entries *)

Section QuantizerValues.

(** C1, as stated, fails.  With the codebook rows [4099] and [4096] and the
    input [4097] both expansions round to 0 in float32, [argmin] keeps
    position 0, and the latent is [4099]; the nearest row, at squared
    distance 1 instead of 4, is the one at position 1. *)
Lemma C1_counterexample :
  expansion (B := sequential) [num_4097] [num_4099] = S754_zero false ∧
  expansion (B := sequential) [num_4097] [num_4096] = S754_zero false ∧
  selected_e_index (B := sequential) [data z_near] (embeddings_weight vq_near)
  = Some [[0]] ∧
  (∃ loss, forward (B := sequential) vq_near z_near
           = Ok (loss, Tensor [1; 1] [num_4099])) ∧
  ¬ first_nearest (exact_rows (embeddings_weight vq_near))
      (exact_row (data z_near)) 0.
Proof.
  do 3 (split; [by vm_compute|]). split; [eexists; by vm_compute|].
  intros (w & Hw & Hmin). injection Hw as <-.
  destruct (Hmin 1%nat [exact num_4096] eq_refl) as [Hle _].
  vm_compute in Hle. by apply Hle.
Qed.

(** C1, amended.  On a well-formed input whose element count is a multiple
    of [embeddings_dim], [forward] returns, and each flattened row [x] gets
    one position of the codebook: the first position of the least float32
    value of the expansion |x|^2 + |w|^2 - 2 x.w over the codebook rows [w]
    (the first position of a nan, if one of these values is nan), as the
    backend computes it, whatever its order of accumulation.  The least
    value of the expansion need not belong to the nearest row, since every
    operation rounds.  The one-hot table that [forward]
    multiplies with the codebook has its ones at these positions.  With the
    codebook [[0,0],[10,10],[5,5],[-5,-5]] and the input [1,1] the position
    is 0 and the quantised vector is [0,0] (accumulating in index order). *)
Theorem C1_first_least_expansion :
  (∀ (B : Backend) self inputs,
     wf_vq self → wf_tensor inputs →
     0 < embeddings_dim self →
     numel inputs `mod` embeddings_dim self = 0 →
     ∃ (X : matrix) (idx : list nat) loss latent,
       view2 inputs (embeddings_dim self) = Some X ∧
       selected_e_index X (embeddings_weight self) = Some (unsqueeze1 idx) ∧
       Forall2 (λ x i, first_least (expansion x <$> embeddings_weight self) i)
         X idx ∧
       forward self inputs = Ok (loss, latent) ∧
       data latent
       = zip_with fadd (data inputs)
           (zip_with fsub
              (concat (matmul (one_hot_row (num_embeddings self) <$> idx)
                         (embeddings_weight self)))
              (data inputs)))
  ∧ selected_e_index (B := sequential) [data z_ex] codebook_ex = Some [[0]]
  ∧ ∃ loss, forward (B := sequential) vq_ex z_ex
            = Ok (loss, Tensor [1; 2] [S754_zero false; S754_zero false]).
Proof.
  split; [|split; [by vm_compute|eexists; apply forward_ex_f]].
  intros B self inputs Hvq Hx Hd Hdiv.
  destruct (forward_run_f self inputs Hvq Hx Hd Hdiv)
    as (X & idx & HX & Hsel & Hleast & _ & _ & _ & Hrun).
  exists X, idx. eexists _, _. do 3 (split; [done|]). split; [exact Hrun|done].
Qed.

Lemma C1_witness :
  wf_vq vq_ex ∧ wf_tensor z_ex ∧
  0 < embeddings_dim vq_ex ∧ numel z_ex `mod` embeddings_dim vq_ex = 0 ∧
  ∃ (X : matrix) (idx : list nat) loss latent,
    view2 z_ex (embeddings_dim vq_ex) = Some X ∧
    selected_e_index (B := sequential) X (embeddings_weight vq_ex)
    = Some (unsqueeze1 idx) ∧
    Forall2 (λ x i, first_least
                      (expansion (B := sequential) x <$> embeddings_weight vq_ex) i)
      X idx ∧
    forward (B := sequential) vq_ex z_ex = Ok (loss, latent) ∧
    data latent
    = zip_with fadd (data z_ex)
        (zip_with fsub
           (concat (matmul (B := sequential)
                      (one_hot_row (num_embeddings vq_ex) <$> idx)
                      (embeddings_weight vq_ex)))
           (data z_ex)).
Proof.
  split; [exact wf_vq_ex_f|]. split; [reflexivity|].
  split; [simpl; lia|]. split; [reflexivity|].
  apply (proj1 C1_first_least_expansion sequential vq_ex z_ex);
    [exact wf_vq_ex_f|reflexivity|simpl; lia|reflexivity].
Defined.

(** C2, as stated, fails.  With the codebook row [3 * 2^-25, 0] and the
    input [1, 0] the difference [e - inputs] rounds to [-(1 - 2^-23)], and
    the latent is [2^-23, 0]: not a row of the codebook.  With the
    codebook rows [0] and [inf] and the input [-1] the row selected is
    [0], the product of the one-hot row [1, 0] with the codebook is
    1 * 0 + 0 * inf = nan, and the latent is [nan]. *)
Lemma C2_counterexample :
  (∃ loss latent,
     forward (B := sequential) vq_tiny z_tiny = Ok (loss, latent) ∧
     data latent = [num_2m23; S754_zero false] ∧
     embeddings_weight vq_tiny = [[num_3_2m25; S754_zero false]] ∧
     (∀ r, r ∈ embeddings_weight vq_tiny → data latent ≠ r) ∧
     SFeqb num_2m23 num_3_2m25 = false) ∧
  selected_e_index (B := sequential) [data z_inf] (embeddings_weight vq_inf)
  = Some [[0]] ∧
  embeddings_weight vq_inf !! 0 = Some [S754_zero false] ∧
  ∃ loss,
    forward (B := sequential) vq_inf z_inf = Ok (loss, Tensor [1; 1] [S754_nan]).
Proof.
  split; [|split; [by vm_compute|split; [done|eexists; by vm_compute]]].
  eexists _, _. split; [by vm_compute|]. split; [done|]. split; [done|].
  split; [|done]. intros r Hr. apply list_elem_of_singleton in Hr as ->. done.
Qed.

(** C2, amended.  With a codebook of finite numbers (and a backend whose
    product with a one-hot row selects), the latent that [forward] returns
    has the shape of the input and holds at each position the float32
    value of [x + (w - x)], for the input entry [x] and the entry [w] of
    the codebook row at the position assigned to its row.  That value is
    [w] itself (up to the sign of a zero) where [x] is a zero or is [w]
    already; elsewhere the two operations round. *)
Theorem C2_latent_straight_through (B : Backend) self inputs :
  selects B →
  wf_vq self →
  Forall (Forall (λ v, finite v = true)) (embeddings_weight self) →
  wf_tensor inputs →
  0 < embeddings_dim self →
  numel inputs `mod` embeddings_dim self = 0 →
  ∃ (X : matrix) (idx : list nat) loss latent,
    view2 inputs (embeddings_dim self) = Some X ∧
    selected_e_index X (embeddings_weight self) = Some (unsqueeze1 idx) ∧
    forward self inputs = Ok (loss, latent) ∧
    Forall2 (λ i r, embeddings_weight self !! i = Some r) idx
      (select (embeddings_weight self) idx) ∧
    shape latent = shape inputs ∧
    data latent
    = zip_with (λ x w, fadd x (fsub w x)) (data inputs)
        (concat (select (embeddings_weight self) idx)) ∧
    length (data latent) = length (data inputs) ∧
    ∀ p x w l,
      data inputs !! p = Some x →
      concat (select (embeddings_weight self) idx) !! p = Some w →
      data latent !! p = Some l →
      x = w ∨ (∃ s, x = S754_zero s) → same_value l w.
Proof.
  intros Hsel Hvq Hfin Hx Hd Hdiv.
  destruct (forward_selected_f self inputs Hsel Hvq Hfin Hx Hd Hdiv)
    as (X & idx & HX & Hidx & Hrows & Hlen & Hsfin & Hrun).
  exists X, idx. eexists _, _. do 2 (split; [done|]). split; [exact Hrun|].
  split; [done|]. split; [done|]. cbn [data]. split; [done|]. split.
  - rewrite length_zip_with. lia.
  - intros p x w l Hpx Hpw Hpl Hxw.
    rewrite lookup_zip_with, Hpx in Hpl. simpl in Hpl. rewrite Hpw in Hpl.
    injection Hpl as <-. apply through_exact; [|done].
    by apply (Forall_lookup_1 _ _ _ _ Hsfin Hpw).
Qed.

Lemma C2_witness :
  selects sequential ∧ wf_vq vq_ex ∧
  Forall (Forall (λ v, finite v = true)) (embeddings_weight vq_ex) ∧
  wf_tensor z_ex ∧
  0 < embeddings_dim vq_ex ∧ numel z_ex `mod` embeddings_dim vq_ex = 0 ∧
  ∃ (X : matrix) (idx : list nat) loss latent,
    view2 z_ex (embeddings_dim vq_ex) = Some X ∧
    selected_e_index (B := sequential) X (embeddings_weight vq_ex)
    = Some (unsqueeze1 idx) ∧
    forward (B := sequential) vq_ex z_ex = Ok (loss, latent) ∧
    Forall2 (λ i r, embeddings_weight vq_ex !! i = Some r) idx
      (select (embeddings_weight vq_ex) idx) ∧
    shape latent = shape z_ex ∧
    data latent
    = zip_with (λ x w, fadd x (fsub w x)) (data z_ex)
        (concat (select (embeddings_weight vq_ex) idx)) ∧
    length (data latent) = length (data z_ex) ∧
    ∀ p x w l,
      data z_ex !! p = Some x →
      concat (select (embeddings_weight vq_ex) idx) !! p = Some w →
      data latent !! p = Some l →
      x = w ∨ (∃ s, x = S754_zero s) → same_value l w.
Proof.
  split; [exact sequential_selects|]. split; [exact wf_vq_ex_f|].
  split; [exact codebook_ex_finite|]. split; [reflexivity|].
  split; [simpl; lia|]. split; [reflexivity|].
  apply (C2_latent_straight_through sequential vq_ex z_ex);
    [exact sequential_selects|exact wf_vq_ex_f|exact codebook_ex_finite
    |reflexivity|simpl; lia|reflexivity].
Defined.

(** C3, as stated, fails where the codebook holds an infinity.  With the
    rows [0] and [inf], [commitment_cost = 0.25] and the input [-1] the
    row selected is [0], at squared distance 1, so that the formula of
    the claim gives 0.25 * 1 + 1 = 1.25; the product of the one-hot row
    [1, 0] with the codebook is 1 * 0 + 0 * inf = nan, and the loss that
    [forward] returns is nan. *)
Lemma C3_counterexample :
  selected_e_index (B := sequential) [data z_inf] (embeddings_weight vq_inf)
  = Some [[0]] ∧
  select (embeddings_weight vq_inf) [0] = [[S754_zero false]] ∧
  forward (B := sequential) vq_inf z_inf
  = Ok (S754_nan, Tensor [1; 1] [S754_nan]) ∧
  let e_loss :=
    mean_k (Backend := sequential)
      (zip_with (λ w x, fmul (fsub w x) (fsub w x))
         [S754_zero false] (data z_inf)) in
  let q_loss :=
    mean_k (Backend := sequential)
      (zip_with (λ x w, fmul (fsub x w) (fsub x w))
         (data z_inf) [S754_zero false]) in
  e_loss = S754_finite false 8388608 (-23) ∧
  q_loss = S754_finite false 8388608 (-23) ∧
  fadd (fmul (binary_round 24 128 false 4503599627370496 (-54)) e_loss) q_loss
  = S754_finite false 10485760 (-23).
Proof. repeat split; by vm_compute. Qed.

(** C3, amended.  The loss that [forward] returns is
    [commitment_cost * e_loss + q_loss] in float32, the Python float
    [commitment_cost] rounded to float32: [e_loss] is [torch.mean] of the
    squared differences between the entries of [e] and the input entries,
    [q_loss] is [torch.mean] of the squared differences between the input
    entries and the entries of [e], for [e] the product of the one-hot
    table and the codebook.  The two tensors of squared differences are
    the same, so [e_loss] and [q_loss] have the same value.  With a
    codebook of finite numbers (and a backend whose product with a one-hot
    row selects), the entries of [e] can be replaced by those of the
    codebook rows selected.  With [commitment_cost = 0.25], the codebook of
    the scenario and the input [1,1] the loss is 1.25 (accumulating in
    index order). *)
Theorem C3_loss_formula :
  (∀ (B : Backend) self inputs,
     wf_vq self → wf_tensor inputs →
     0 < embeddings_dim self →
     numel inputs `mod` embeddings_dim self = 0 →
     ∃ (X : matrix) (idx : list nat) loss latent,
       view2 inputs (embeddings_dim self) = Some X ∧
       selected_e_index X (embeddings_weight self) = Some (unsqueeze1 idx) ∧
       forward self inputs = Ok (loss, latent) ∧
       let e := concat (matmul (one_hot_row (num_embeddings self) <$> idx)
                          (embeddings_weight self)) in
       let e_loss :=
         mean_k (zip_with (λ w x, fmul (fsub w x) (fsub w x))
                   e (data inputs)) in
       let q_loss :=
         mean_k (zip_with (λ x w, fmul (fsub x w) (fsub x w))
                   (data inputs) e) in
       let cost :=
         match commitment_cost self with
         | S754_finite s m e => binary_round 24 128 s m e
         | _ => commitment_cost self
         end in
       length e = length (data inputs) ∧
       loss = fadd (fmul cost e_loss) q_loss ∧
       e_loss = q_loss)
  ∧ (∀ (B : Backend) self inputs,
     selects B →
     wf_vq self →
     Forall (Forall (λ v, finite v = true)) (embeddings_weight self) →
     wf_tensor inputs →
     0 < embeddings_dim self →
     numel inputs `mod` embeddings_dim self = 0 →
     ∃ (X : matrix) (idx : list nat) loss latent,
       view2 inputs (embeddings_dim self) = Some X ∧
       selected_e_index X (embeddings_weight self) = Some (unsqueeze1 idx) ∧
       forward self inputs = Ok (loss, latent) ∧
       Forall2 (λ i r, embeddings_weight self !! i = Some r) idx
         (select (embeddings_weight self) idx) ∧
       let selected := concat (select (embeddings_weight self) idx) in
       let e_loss :=
         mean_k (zip_with (λ w x, fmul (fsub w x) (fsub w x))
                   selected (data inputs)) in
       let q_loss :=
         mean_k (zip_with (λ x w, fmul (fsub x w) (fsub x w))
                   (data inputs) selected) in
       let cost :=
         match commitment_cost self with
         | S754_finite s m e => binary_round 24 128 s m e
         | _ => commitment_cost self
         end in
       length selected = length (data inputs) ∧
       loss = fadd (fmul cost e_loss) q_loss ∧
       e_loss = q_loss)
  ∧ forward (B := sequential) vq_ex z_ex
    = Ok (S754_finite false 10485760 (-23),
          Tensor [1; 2] [S754_zero false; S754_zero false]).
Proof.
  split; [|split; [|exact forward_ex_f]].
  - intros B self inputs Hvq Hx Hd Hdiv.
    destruct (forward_product_f self inputs Hvq Hx Hd Hdiv)
      as (X & idx & HX & Hidx & He & Hrun).
    exists X, idx. eexists _, _. do 2 (split; [done|]). split; [exact Hrun|].
    cbv zeta. split; [done|]. split; [reflexivity|].
    f_equal. apply sq_diff_sym_list.
  - intros B self inputs Hsel Hvq Hfin Hx Hd Hdiv.
    destruct (forward_selected_f self inputs Hsel Hvq Hfin Hx Hd Hdiv)
      as (X & idx & HX & Hidx & Hrows & Hlen & Hsfin & Hrun).
    exists X, idx. eexists _, _. do 2 (split; [done|]). split; [exact Hrun|].
    split; [done|]. cbv zeta. split; [done|]. split; [reflexivity|].
    f_equal. apply sq_diff_sym_list.
Qed.

Lemma C3_witness :
  selects sequential ∧ wf_vq vq_ex ∧
  Forall (Forall (λ v, finite v = true)) (embeddings_weight vq_ex) ∧
  wf_tensor z_ex ∧
  0 < embeddings_dim vq_ex ∧ numel z_ex `mod` embeddings_dim vq_ex = 0 ∧
  (∃ (X : matrix) (idx : list nat) loss latent,
    view2 z_ex (embeddings_dim vq_ex) = Some X ∧
    selected_e_index (B := sequential) X (embeddings_weight vq_ex)
    = Some (unsqueeze1 idx) ∧
    forward (B := sequential) vq_ex z_ex = Ok (loss, latent) ∧
    let e := concat (matmul (B := sequential)
                       (one_hot_row (num_embeddings vq_ex) <$> idx)
                       (embeddings_weight vq_ex)) in
    let e_loss :=
      mean_k (Backend := sequential)
        (zip_with (λ w x, fmul (fsub w x) (fsub w x)) e (data z_ex)) in
    let q_loss :=
      mean_k (Backend := sequential)
        (zip_with (λ x w, fmul (fsub x w) (fsub x w)) (data z_ex) e) in
    let cost :=
      match commitment_cost vq_ex with
      | S754_finite s m e => binary_round 24 128 s m e
      | _ => commitment_cost vq_ex
      end in
    length e = length (data z_ex) ∧
    loss = fadd (fmul cost e_loss) q_loss ∧
    e_loss = q_loss) ∧
  ∃ (X : matrix) (idx : list nat) loss latent,
    view2 z_ex (embeddings_dim vq_ex) = Some X ∧
    selected_e_index (B := sequential) X (embeddings_weight vq_ex)
    = Some (unsqueeze1 idx) ∧
    forward (B := sequential) vq_ex z_ex = Ok (loss, latent) ∧
    Forall2 (λ i r, embeddings_weight vq_ex !! i = Some r) idx
      (select (embeddings_weight vq_ex) idx) ∧
    let selected := concat (select (embeddings_weight vq_ex) idx) in
    let e_loss :=
      mean_k (Backend := sequential)
        (zip_with (λ w x, fmul (fsub w x) (fsub w x)) selected (data z_ex)) in
    let q_loss :=
      mean_k (Backend := sequential)
        (zip_with (λ x w, fmul (fsub x w) (fsub x w)) (data z_ex) selected) in
    let cost :=
      match commitment_cost vq_ex with
      | S754_finite s m e => binary_round 24 128 s m e
      | _ => commitment_cost vq_ex
      end in
    length selected = length (data z_ex) ∧
    loss = fadd (fmul cost e_loss) q_loss ∧
    e_loss = q_loss.
Proof.
  split; [exact sequential_selects|]. split; [exact wf_vq_ex_f|].
  split; [exact codebook_ex_finite|]. split; [reflexivity|].
  split; [simpl; lia|]. split; [reflexivity|]. split.
  - apply (proj1 C3_loss_formula sequential vq_ex z_ex);
      [exact wf_vq_ex_f|reflexivity|simpl; lia|reflexivity].
  - apply (proj1 (proj2 C3_loss_formula) sequential vq_ex z_ex);
      [exact sequential_selects|exact wf_vq_ex_f|exact codebook_ex_finite
      |reflexivity|simpl; lia|reflexivity].
Defined.

(** C8, as stated, fails: the returned loss is nan, which is not [>= 0],
    on an input without elements (both means are taken over nothing), and
    on the input [2^67, 2^67] against the codebook row [0, 0] with
    [commitment_cost = 0] (the squares overflow to inf, and 0 * inf is
    nan). *)
Lemma C8_counterexample :
  SFleb (S754_zero false) (commitment_cost vq_ex) = true ∧
  forward (B := sequential) vq_ex empty_ex = Ok (S754_nan, empty_ex) ∧
  SFleb (S754_zero false) (commitment_cost vq_big) = true ∧
  fmul num_2p67 num_2p67 = S754_infinity false ∧
  forward (B := sequential) vq_big z_big
  = Ok (S754_nan, Tensor [1; 2] [S754_zero false; S754_zero false]) ∧
  SFleb (S754_zero false) S754_nan = false.
Proof. repeat split; by vm_compute. Qed.

(** C8, amended.  With [commitment_cost >= 0] the loss that [forward]
    returns is never negative: it is nan or it is [>= 0] (inf included),
    for every backend whose mean of values that are not negative is not
    negative.  With a codebook of numbers it is nan exactly when [e_loss]
    is nan (as on an input without elements), or when
    [commitment_cost * e_loss] is 0 * inf or inf * 0.  With
    [commitment_cost = 0.25], the codebook row [0,0] and the input [1,1],
    [e_loss = 1], [q_loss = 1] and the loss is 1.25 (accumulating in index
    order). *)
Theorem C8_loss_not_negative :
  (∀ (B : Backend) self inputs,
     mean_sign B →
     wf_vq self → wf_tensor inputs →
     0 < embeddings_dim self →
     numel inputs `mod` embeddings_dim self = 0 →
     SFleb (S754_zero false) (commitment_cost self) = true →
     ∃ loss latent,
       forward self inputs = Ok (loss, latent) ∧
       SFltb loss (S754_zero false) = false ∧
       (loss = S754_nan ∨ SFleb (S754_zero false) loss = true))
  ∧ (∀ (B : Backend) self inputs,
     mean_sign B → selects B →
     wf_vq self →
     Forall (Forall (λ v, finite v = true)) (embeddings_weight self) →
     wf_tensor inputs →
     0 < embeddings_dim self →
     numel inputs `mod` embeddings_dim self = 0 →
     SFleb (S754_zero false) (commitment_cost self) = true →
     ∃ (X : matrix) (idx : list nat) loss latent,
       view2 inputs (embeddings_dim self) = Some X ∧
       selected_e_index X (embeddings_weight self) = Some (unsqueeze1 idx) ∧
       forward self inputs = Ok (loss, latent) ∧
       let e_loss :=
         mean_k (zip_with (λ w x, fmul (fsub w x) (fsub w x))
                   (concat (select (embeddings_weight self) idx))
                   (data inputs)) in
       let cost :=
         match commitment_cost self with
         | S754_finite s m e => binary_round 24 128 s m e
         | _ => commitment_cost self
         end in
       (loss = S754_nan ↔
          e_loss = S754_nan ∨
          ((∃ s, cost = S754_zero s) ∧ e_loss = S754_infinity false) ∨
          (cost = S754_infinity false ∧ ∃ s, e_loss = S754_zero s)))
  ∧ mean_k (Backend := sequential)
      (zip_with (λ w x, fmul (fsub w x) (fsub w x))
         [S754_zero false; S754_zero false] (data z_ex))
    = S754_finite false 8388608 (-23)
  ∧ mean_k (Backend := sequential)
      (zip_with (λ x w, fmul (fsub x w) (fsub x w))
         (data z_ex) [S754_zero false; S754_zero false])
    = S754_finite false 8388608 (-23)
  ∧ forward (B := sequential) vq_ex z_ex
    = Ok (S754_finite false 10485760 (-23),
          Tensor [1; 2] [S754_zero false; S754_zero false]).
Proof.
  assert (Hcost : ∀ c, SFleb (S754_zero false) c = true →
            nonneg (of_float c) = true ∧ of_float c ≠ S754_nan).
  { intros c Hc. split.
    - apply of_float_nonneg, nonneg_spec. by right.
    - apply of_float_number. by intros ->. }
  assert (Hsq : ∀ (f : f32 → f32 → f32) a b,
            (∀ x y, nonneg (f x y) = true) →
            Forall (λ v, nonneg v = true) (zip_with f a b)).
  { intros f a b Hf. revert b. induction a as [|x a IH]; intros [|y b];
      simpl; constructor; [apply Hf|apply IH]. }
  split; [|split; [|split; [by vm_compute|split; [by vm_compute|]]]].
  - intros B self inputs Hmean Hvq Hx Hd Hdiv Hcc.
    destruct (forward_run_f self inputs Hvq Hx Hd Hdiv)
      as (X & idx & _ & _ & _ & _ & _ & _ & Hrun).
    eexists _, _. split; [exact Hrun|].
    assert (Hp : ∀ l, Forall (λ v, nonneg v = true) (pow2 l)).
    { intros l. unfold pow2. rewrite Forall_fmap. apply Forall_true.
      intros v. apply fmul_square_nonneg. }
    match goal with |- SFltb ?l _ = false ∧ _ =>
      assert (Hl : nonneg l = true) end.
    { apply fadd_nonneg; [apply fmul_nonneg|]; [|by apply Hmean..].
      by apply Hcost. }
    revert Hl.
    match goal with |- nonneg ?l = true → _ => generalize l end.
    intros [s|[]| |[] m e]; try done; intros _; split; auto.
  - intros B self inputs Hmean Hsel Hvq Hfin Hx Hd Hdiv Hcc.
    destruct (forward_selected_f self inputs Hsel Hvq Hfin Hx Hd Hdiv)
      as (X & idx & HX & Hidx & Hrows & Hlen & Hsfin & Hrun).
    exists X, idx. eexists _, _. do 2 (split; [done|]). split; [exact Hrun|].
    cbv zeta. destruct (Hcost _ Hcc) as [Hc0 Hcn].
    fold (of_float (commitment_cost self)).
    change (λ w x : f32, fmul (fsub w x) (fsub w x)) with sq_diff.
    rewrite (sq_diff_sym_list (data inputs)).
    set (el := mean_k _).
    assert (Hel : nonneg el = true).
    { apply Hmean, Hsq. intros x y. apply fmul_square_nonneg. }
    rewrite fadd_nan by (by try apply fmul_nonneg).
    rewrite fmul_nan by done. split.
    + intros [[H|[H|[H|H]]]|H]; auto. done.
    + intros [H|[H|H]]; auto.
  - exact forward_ex_f.
Qed.

Lemma C8_witness :
  mean_sign sequential ∧ selects sequential ∧ wf_vq vq_ex ∧
  Forall (Forall (λ v, finite v = true)) (embeddings_weight vq_ex) ∧
  wf_tensor z_ex ∧
  0 < embeddings_dim vq_ex ∧ numel z_ex `mod` embeddings_dim vq_ex = 0 ∧
  SFleb (S754_zero false) (commitment_cost vq_ex) = true ∧
  (∃ loss latent,
     forward (B := sequential) vq_ex z_ex = Ok (loss, latent) ∧
     SFltb loss (S754_zero false) = false ∧
     (loss = S754_nan ∨ SFleb (S754_zero false) loss = true)) ∧
  ∃ (X : matrix) (idx : list nat) loss latent,
    view2 z_ex (embeddings_dim vq_ex) = Some X ∧
    selected_e_index (B := sequential) X (embeddings_weight vq_ex)
    = Some (unsqueeze1 idx) ∧
    forward (B := sequential) vq_ex z_ex = Ok (loss, latent) ∧
    let e_loss :=
      mean_k (Backend := sequential)
        (zip_with (λ w x, fmul (fsub w x) (fsub w x))
           (concat (select (embeddings_weight vq_ex) idx)) (data z_ex)) in
    let cost :=
      match commitment_cost vq_ex with
      | S754_finite s m e => binary_round 24 128 s m e
      | _ => commitment_cost vq_ex
      end in
    (loss = S754_nan ↔
       e_loss = S754_nan ∨
       ((∃ s, cost = S754_zero s) ∧ e_loss = S754_infinity false) ∨
       (cost = S754_infinity false ∧ ∃ s, e_loss = S754_zero s)).
Proof.
  split; [exact sequential_mean_sign|]. split; [exact sequential_selects|].
  split; [exact wf_vq_ex_f|]. split; [exact codebook_ex_finite|].
  split; [reflexivity|]. split; [simpl; lia|]. split; [reflexivity|].
  split; [reflexivity|]. split.
  - apply (proj1 C8_loss_not_negative sequential vq_ex z_ex);
      [exact sequential_mean_sign|exact wf_vq_ex_f|reflexivity|simpl; lia
      |reflexivity|reflexivity].
  - apply (proj1 (proj2 C8_loss_not_negative) sequential vq_ex z_ex);
      [exact sequential_mean_sign|exact sequential_selects|exact wf_vq_ex_f
      |exact codebook_ex_finite|reflexivity|simpl; lia|reflexivity
      |reflexivity].
Defined.

End QuantizerValues.

End Float32.

(** ** The convolutional stacks: construction and shapes *)

Section Stacks.
Local Open Scope Z_scope.

Lemma sequential_cons m ms x :
  module_forward (Sequential (m :: ms)) x
  = module_forward m x ≫= module_forward (Sequential ms).
Proof. simpl. by destruct (module_forward m x). Qed.

Lemma conv2d_run N C H W ic oc k s p :
  0 < N → 0 < ic → 0 < oc → 0 < s → C = ic →
  k ≤ H + 2 * p → k ≤ W + 2 * p →
  module_forward (Conv2d ic oc k s p) (TShape N C H W)
  = Ok (TShape N oc (conv_out H k s p) (conv_out W k s p)).
Proof. intros; simpl. by rewrite bool_decide_eq_true_2 by lia. Qed.

Lemma conv_transpose2d_run N C H W ic oc k s p :
  0 < N → 0 < ic → 0 < oc → 0 < s → C = ic → 0 < H → 0 < W →
  module_forward (ConvTranspose2d ic oc k s p) (TShape N C H W)
  = Ok (TShape N oc (conv_transpose_out H k s p) (conv_transpose_out W k s p)).
Proof. intros; simpl. by rewrite bool_decide_eq_true_2 by lia. Qed.

(** A stride-2 convolution halves an even size; the 3x3 and 1x1
    convolutions keep the size; a stride-2 transposed one doubles it. *)
Lemma conv_out_down a : conv_out (2 * a) 4 2 1 = a.
Proof.
  unfold conv_out. replace (2 * a + 2 * 1 - 4) with ((a - 1) * 2) by lia.
  rewrite Z.div_mul by lia. lia.
Qed.

Lemma conv_out_same3 a : conv_out a 3 1 1 = a.
Proof. unfold conv_out. rewrite Z.div_1_r. lia. Qed.

Lemma conv_out_same1 a : conv_out a 1 1 0 = a.
Proof. unfold conv_out. rewrite Z.div_1_r. lia. Qed.

Lemma conv_transpose_out_up a : conv_transpose_out a 4 2 1 = 2 * a.
Proof. unfold conv_transpose_out. lia. Qed.

Lemma residual_run N C H W c r :
  0 < N → 0 < c → 0 < r → C = c → 0 < H → 0 < W →
  module_forward (Residual_block c r) (TShape N C H W) = Ok (TShape N C H W).
Proof.
  intros HN Hc Hr -> HH HW. unfold Residual_block.
  change (module_forward (Residual ?b) ?x)
    with (match module_forward b x with
          | Ok y => if decide (x = y) then Ok x else Err RuntimeError
          | Err e => Err e
          end).
  rewrite sequential_cons. change (module_forward ReLU ?x) with (Ok x).
  change (Ok ?x ≫= ?k) with (k x).
  rewrite sequential_cons, conv2d_run by lia.
  change (Ok ?x ≫= ?k) with (k x).
  rewrite sequential_cons. change (module_forward ReLU ?x) with (Ok x).
  change (Ok ?x ≫= ?k) with (k x).
  rewrite sequential_cons, conv2d_run by (rewrite ?conv_out_same3; lia).
  change (Ok ?x ≫= ?k) with (k x).
  change (module_forward (Sequential []) ?x) with (Ok x).
  rewrite !conv_out_same3, !conv_out_same1. by rewrite decide_True.
Qed.

Lemma residuals_run n N C H W c r :
  0 < N → 0 < c → 0 < r → C = c → 0 < H → 0 < W →
  module_forward (Sequential (replicate n (Residual_block c r))) (TShape N C H W)
  = Ok (TShape N C H W).
Proof.
  intros; induction n as [|n IH]; [done|].
  change (replicate (S n) ?m) with (m :: replicate n m).
  rewrite sequential_cons, residual_run by done. exact IH.
Qed.

Lemma modules_of_replicate n m :
  modules_of (replicate n (PModule m)) = Ok (replicate n m).
Proof. induction n as [|n IH]; [done|]. simpl. by rewrite IH. Qed.

Lemma nn_Sequential_replicate n m :
  nn_Sequential (replicate n (PModule m)) = Ok (Sequential (replicate n m)).
Proof. unfold nn_Sequential. by rewrite modules_of_replicate. Qed.

(** *** The constructors *)

Lemma Conv2d_init_Ok ic oc k s p :
  0 ≤ ic → 0 ≤ oc → Conv2d_init ic oc k s p = Ok (Conv2d ic oc k s p).
Proof. intros. unfold Conv2d_init. by rewrite bool_decide_eq_false_2 by lia. Qed.

Lemma Conv2d_init_Err ic oc k s p :
  ic < 0 ∨ oc < 0 → Conv2d_init ic oc k s p = Err RuntimeError.
Proof. intros. unfold Conv2d_init. by rewrite bool_decide_eq_true_2. Qed.

Lemma ConvTranspose2d_init_Ok ic oc k s p :
  0 ≤ ic → 0 ≤ oc →
  ConvTranspose2d_init ic oc k s p = Ok (ConvTranspose2d ic oc k s p).
Proof.
  intros. unfold ConvTranspose2d_init. by rewrite bool_decide_eq_false_2 by lia.
Qed.

Lemma ConvTranspose2d_init_Err ic oc k s p :
  ic < 0 ∨ oc < 0 → ConvTranspose2d_init ic oc k s p = Err RuntimeError.
Proof. intros. unfold ConvTranspose2d_init. by rewrite bool_decide_eq_true_2. Qed.

Lemma Residual_init_Ok c r :
  0 ≤ c → 0 ≤ r → Residual_init c r = Ok (Residual_block c r).
Proof. intros. unfold Residual_init. by rewrite !Conv2d_init_Ok. Qed.

Lemma Residual_init_Err c r :
  c < 0 ∨ r < 0 → Residual_init c r = Err RuntimeError.
Proof.
  intros. unfold Residual_init.
  rewrite (Conv2d_init_Err c r) by done. done.
Qed.

Lemma mapM_const_Ok {A C} (a : C) (l : list A) :
  mapM (M := result) (λ _, Ok a) l = Ok (replicate (length l) a).
Proof. induction l as [|x l IH]; [done|]. simpl. by rewrite IH. Qed.

Lemma comprehension_Ok {A} n (body : result A) a :
  body = Ok a → comprehension n body = Ok (replicate (Z.to_nat n) a).
Proof.
  intros ->. unfold comprehension. by rewrite mapM_const_Ok, length_seq.
Qed.

Lemma comprehension_nil {A} n (body : result A) :
  n ≤ 0 → comprehension n body = Ok [].
Proof. intros. unfold comprehension. by replace (Z.to_nat n) with 0%nat by lia. Qed.

Lemma comprehension_Err {A} n (body : result A) e :
  0 < n → body = Err e → comprehension n body = Err e.
Proof.
  intros Hn ->. unfold comprehension.
  destruct (Z.to_nat n) as [|k] eqn:E; [lia|]. done.
Qed.

(** The residual blocks of a decoder, whenever their construction
    succeeds. *)
Lemma residual_list hu rhu nl :
  0 ≤ hu → (0 < nl → 0 ≤ rhu) →
  comprehension nl (PModule <$> Residual_init hu rhu)
  = Ok (replicate (Z.to_nat nl) (PModule (Residual_block hu rhu))).
Proof.
  intros Hhu Hrhu. destruct (decide (0 < nl)) as [Hnl|Hnl].
  - apply comprehension_Ok. by rewrite Residual_init_Ok by auto.
  - rewrite comprehension_nil by lia. by replace (Z.to_nat nl) with 0%nat by lia.
Qed.

(** What a successful construction has built. *)
Lemma Encoder_init_Ok ic hu nl rhu npc enc :
  Encoder_init [ic; hu; nl; rhu; npc] = Ok enc →
  Z.to_nat nl = 0%nat ∧ 0 ≤ hu ∧
  ((npc = 4 ∧ 0 ≤ ic ∧
    layers enc = Sequential [Conv2d ic (hu `div` 2) 4 2 1; ReLU;
                              Conv2d (hu `div` 2) hu 4 2 1; ReLU;
                              Conv2d hu hu 3 1 1; ReLU]) ∨
   (npc = 2 ∧
    layers enc = Sequential [Conv2d (hu `div` 2) hu 4 2 1; ReLU;
                              Conv2d hu hu 3 1 1; ReLU])).
Proof.
  unfold Encoder_init.
  destruct (decide (npc = 4)) as [->|H4]; [|destruct (decide (npc = 2)) as [->|H2]].
  - simpl negb. cbv iota.
    rewrite (bool_decide_eq_true_2 (4 = 4)) by done.
    destruct (decide (0 ≤ ic ∧ 0 ≤ hu)) as [[Hic Hhu]|Hneg].
    + assert (0 ≤ hu `div` 2) by (apply Z.div_pos; lia).
      rewrite !Conv2d_init_Ok by done.
      destruct (Z.to_nat nl) as [|n] eqn:E; simpl; [|done].
      intros [= <-]. eauto 8.
    + destruct (decide (ic < 0 ∨ hu `div` 2 < 0)) as [Hn|Hn].
      * by rewrite (Conv2d_init_Err ic) by done.
      * assert (hu < 0) by lia. assert (hu `div` 2 < 0)
          by (Z.div_mod_to_equations; lia). lia.
  - simpl negb. cbv iota.
    rewrite (bool_decide_eq_false_2 (2 = 4)) by done.
    rewrite (bool_decide_eq_true_2 (2 = 2)) by done.
    destruct (decide (0 ≤ hu)) as [Hhu|Hneg].
    + assert (0 ≤ hu `div` 2) by (apply Z.div_pos; lia).
      rewrite !Conv2d_init_Ok by done.
      destruct (Z.to_nat nl) as [|n] eqn:E; simpl; [|done].
      intros [= <-]. eauto 8.
    + by rewrite (Conv2d_init_Err (hu `div` 2) hu) by lia.
  - rewrite !bool_decide_eq_false_2 by done. done.
Qed.

Lemma Decoder_init_Ok ic hu nl rhu nptc dec :
  Decoder_init [ic; hu; nl; rhu; nptc] = Ok dec →
  _1_de_conv dec = Conv2d ic hu 3 1 1 ∧
  residual_layers dec
  = Sequential (replicate (Z.to_nat nl) (Residual_block hu rhu)) ∧
  ((nptc = 2 ∧
    post_block dec = Sequential [ConvTranspose2d hu (hu `div` 2) 4 2 1; ReLU;
                                 ConvTranspose2d (hu `div` 2) 3 4 2 1]) ∨
   (nptc = 1 ∧ post_block dec = Sequential [ConvTranspose2d hu 3 4 2 1])).
Proof.
  unfold Decoder_init.
  destruct (decide (0 ≤ ic ∧ 0 ≤ hu)) as [[Hic Hhu]|Hneg];
    [|by rewrite (Conv2d_init_Err ic hu) by lia].
  rewrite Conv2d_init_Ok by done.
  destruct (decide (0 < nl → 0 ≤ rhu)) as [Hrhu|Hrneg].
  - change (Ok ?x ≫= ?f) with (f x). cbv beta.
    rewrite residual_list by done.
    change (Ok ?x ≫= ?f) with (f x). cbv beta.
    rewrite nn_Sequential_replicate.
    change (Ok ?x ≫= ?f) with (f x). cbv beta.
    assert (0 ≤ hu `div` 2) by (apply Z.div_pos; lia).
    destruct (decide (nptc = 2)) as [->|H2];
      [|destruct (decide (nptc = 1)) as [->|H1]].
    + rewrite (bool_decide_eq_true_2 (2 = 2)) by done.
      rewrite !ConvTranspose2d_init_Ok by lia. simpl. intros [= <-]. eauto.
    + rewrite (bool_decide_eq_false_2 (1 = 2)) by done.
      rewrite (bool_decide_eq_true_2 (1 = 1)) by done.
      rewrite !ConvTranspose2d_init_Ok by lia. simpl. intros [= <-]. eauto 6.
    + rewrite !bool_decide_eq_false_2 by done. done.
  - change (Ok ?x ≫= ?f) with (f x). cbv beta.
    rewrite (comprehension_Err nl _ RuntimeError); [done|lia|].
    rewrite Residual_init_Err; [done|lia].
Qed.

End Stacks.

(** Run a stack layer by layer on a shape with symbolic sizes. *)
Ltac run_stack :=
  repeat first
    [ rewrite sequential_cons
    | rewrite conv2d_run by (rewrite ?conv_out_down; lia)
    | rewrite conv_transpose2d_run by lia
    | rewrite residuals_run by lia
    | rewrite conv_out_down | rewrite conv_out_same3
    | rewrite conv_transpose_out_up
    | progress change (module_forward ReLU ?x) with (Ok x)
    | progress change (module_forward (Sequential []) ?x) with (Ok x)
    | progress change (Ok ?x ≫= ?f) with (f x)
    | progress change (?f <$> Ok ?x) with (Ok (f x))
    | progress cbv beta iota ].

(** ** Properties of [Encoder], [Decoder] and [Model] *)

Section StackClaims.
Local Open Scope Z_scope.

(** C5.  What [Encoder.forward] does: for every input it returns the layer
    stack object of the encoder itself, not the stack applied to the input;
    the returned value is the same for all inputs.  For the encoder
    [Encoder(3, 6, 0, 2, 2)] and an 8x8 image the stack applied to the image
    would be a 6-channel 4x4 tensor. *)
Theorem C5_encoder_forward_returns_stack :
  (∀ self inputs, Encoder_forward self inputs = Ok (VModule (layers self))) ∧
  (∀ self x y, Encoder_forward self x = Encoder_forward self y) ∧
  Encoder_init [3; 6; 0; 2; 2] = Ok enc_ex ∧
  Encoder_forward enc_ex (VTensor image_ex) = Ok (VModule (layers enc_ex)) ∧
  call (layers enc_ex) (VTensor image_ex) = Ok (VTensor (TShape 1 6 4 4)).
Proof. by repeat split. Qed.

(** C6.  What [Model.__init__] does: whatever the six configuration
    arguments, the construction raises [TypeError], because [Encoder] is
    called with four of its five positional arguments; no [Model] exists on
    which [forward] could run.  And on any object with the fields of a
    [Model], the first two steps of [forward], the encoder and then the
    projection convolution on what the encoder returned, raise as well. *)
Theorem C6_model_init_raises :
  (∀ hu rl rhu ne ed cc draw (h : heap),
     Model_init hu rl rhu ne ed cc draw h = Err TypeError) ∧
  (∀ (self : Model) inputs,
     Encoder_forward (_encoder self) inputs ≫= call (_before_z self)
     = Err TypeError).
Proof. by split. Qed.

(** C7.  With a stage count other than the supported ones the construction
    raises, whatever the other arguments: [Encoder] with [number_pre_conv]
    other than 2 and 4 fails its assertion, the first statement of its
    constructor; [Decoder] with [number_post_trans_conv] other than 1 and 2
    raises as well, at the latest when it reads the list that no branch has
    bound ([UnboundLocalError], the error for positive channel counts).  No
    module object results, so no forward computation can follow. *)
Theorem C7_stage_count_rejected :
  (∀ ic hu nl rhu n, n ≠ 2 → n ≠ 4 →
     Encoder_init [ic; hu; nl; rhu; n] = Err AssertionError) ∧
  (∀ ic hu nl rhu n, n ≠ 1 → n ≠ 2 →
     ∃ e, Decoder_init [ic; hu; nl; rhu; n] = Err e) ∧
  (∀ ic hu nl rhu n, n ≠ 1 → n ≠ 2 →
     0 < ic → 0 < hu → (0 < nl → 0 < rhu) →
     Decoder_init [ic; hu; nl; rhu; n] = Err UnboundLocalError).
Proof.
  assert (Hpos : ∀ ic hu nl rhu n, n ≠ 1 → n ≠ 2 →
            0 ≤ ic → 0 ≤ hu → (0 < nl → 0 ≤ rhu) →
            Decoder_init [ic; hu; nl; rhu; n] = Err UnboundLocalError).
  { intros ic hu nl rhu n H1 H2 Hic Hhu Hrhu. unfold Decoder_init.
    rewrite Conv2d_init_Ok by done.
    change (Ok ?x ≫= ?f) with (f x). cbv beta.
    rewrite residual_list by done.
    change (Ok ?x ≫= ?f) with (f x). cbv beta.
    rewrite nn_Sequential_replicate.
    change (Ok ?x ≫= ?f) with (f x). cbv beta.
    by rewrite !bool_decide_eq_false_2 by done. }
  split; [|split].
  - intros ic hu nl rhu n H1 H2.
    unfold Encoder_init. by rewrite !bool_decide_eq_false_2.
  - intros ic hu nl rhu n H1 H2.
    destruct (decide (0 ≤ ic ∧ 0 ≤ hu)) as [[Hic Hhu]|Hneg].
    + destruct (decide (0 < nl → 0 ≤ rhu)) as [Hrhu|Hrneg].
      * exists UnboundLocalError. by apply Hpos.
      * exists RuntimeError. unfold Decoder_init.
        rewrite Conv2d_init_Ok by done.
        change (Ok ?x ≫= ?f) with (f x). cbv beta.
        rewrite (comprehension_Err nl _ RuntimeError); [done|lia|].
        rewrite Residual_init_Err; [done|lia].
    + exists RuntimeError. unfold Decoder_init.
      by rewrite (Conv2d_init_Err ic hu) by lia.
  - intros ic hu nl rhu n H1 H2 Hic Hhu Hrhu. apply Hpos; [done|done|lia|lia|].
    intros Hnl. specialize (Hrhu Hnl). lia.
Qed.

Lemma C7_witness :
  (3 ≠ 2 ∧ 3 ≠ 4 ∧ Encoder_init [3; 6; 0; 2; 3] = Err AssertionError) ∧
  (3 ≠ 1 ∧ 3 ≠ 2 ∧ ∃ e, Decoder_init [6; 6; 2; (-2); 3] = Err e) ∧
  (3 ≠ 1 ∧ 3 ≠ 2 ∧ 0 < 6 ∧ 0 < 6 ∧ (0 < 2 → 0 < 2) ∧
   Decoder_init [6; 6; 2; 2; 3] = Err UnboundLocalError).
Proof.
  split; [|split].
  - split; [lia|split; [lia|]].
    apply (proj1 C7_stage_count_rejected); lia.
  - split; [lia|split; [lia|]].
    apply (proj1 (proj2 C7_stage_count_rejected)); lia.
  - do 5 (split; [lia|]).
    apply (proj2 (proj2 C7_stage_count_rejected)); lia.
Defined.

(** C9.  What the code does with [Decoder(Encoder(x))]: [Encoder.forward]
    hands on its layer stack instead of a tensor, so the first convolution
    of the decoder raises [TypeError], for every encoder, every decoder and
    every input.  For [Encoder(3, 6, 0, 2, 2)], [Decoder(6, 6, 2, 2, 1)]
    and an 8x8 image the round trip raises, where the encoder's stack
    applied to the image, followed by the decoder, is the 3-channel 8x8
    tensor that the claim expects. *)
Theorem C9_decoder_of_encoder_raises :
  (∀ (enc : Encoder) (dec : Decoder) x,
     Encoder_forward enc x ≫= Decoder_forward dec = Err TypeError) ∧
  Encoder_init [3; 6; 0; 2; 2] = Ok enc_ex ∧
  Decoder_init [6; 6; 2; 2; 1] = Ok dec_ex ∧
  (Encoder_forward enc_ex (VTensor image_ex) ≫= Decoder_forward dec_ex)
  = Err TypeError ∧
  (call (layers enc_ex) (VTensor image_ex) ≫= Decoder_forward dec_ex)
  = Ok (VTensor (TShape 1 3 8 8)).
Proof. by repeat split. Qed.

End StackClaims.

(** ** Further properties of [VectorQuantize] *)

Section Distances.
Local Open Scope Qc_scope.

(** The first minimal position is unique. *)
Lemma first_nearest_unique W x i j :
  first_nearest W x i → first_nearest W x j → i = j.
Proof.
  intros (w & Hw & Hi) (w' & Hw' & Hj).
  destruct (Nat.lt_trichotomy i j) as [Hlt|[->|Hlt]]; [|done|].
  - destruct (Hj i w Hw) as [_ Hs]. destruct (Hi j w' Hw') as [Hle _].
    specialize (Hs Hlt). by destruct (Qclt_not_le _ _ Hs).
  - destruct (Hi j w' Hw') as [_ Hs]. destruct (Hj i w Hw) as [Hle _].
    specialize (Hs Hlt). by destruct (Qclt_not_le _ _ Hs).
Qed.

Lemma nearest_unique (W X : matrix) idx idx' :
  Forall2 (first_nearest W) X idx → Forall2 (first_nearest W) X idx' →
  idx = idx'.
Proof.
  intros H; revert idx'. induction H as [|x i X idx Hi _ IH]; intros idx' H'.
  - by inversion H'.
  - inversion H' as [|? j ? idx'' Hj Hrest]; subst.
    f_equal; [by eapply first_nearest_unique|by apply IH].
Qed.

End Distances.

Section QuantizerProperties.
Local Open Scope Qc_scope.

(** X1.  [forward] raises [RuntimeError] at the flattening step when
    [embeddings_dim] is 0 or does not divide the number of elements of the
    input. *)
Theorem X1_forward_bad_size (h : heap) self (W : matrix) inputs :
  h !! embeddings_weight self = Some W →
  embeddings_dim self = 0%nat ∨
    (numel inputs `mod` embeddings_dim self)%nat ≠ 0%nat →
  forward self inputs h = Err RuntimeError.
Proof.
  intros HW Hbad.
  cbv beta zeta delta [forward mbind M_bind bind load lift].
  rewrite HW. unfold view2.
  destruct Hbad as [Hd|Hm]; [by rewrite decide_True|].
  case_decide; [done|]. by rewrite decide_False.
Qed.

Lemma X1_witness :
  [codebook_ex] !! embeddings_weight vq_ex = Some codebook_ex ∧
  (embeddings_dim vq_ex = 0%nat ∨
     (numel odd_ex `mod` embeddings_dim vq_ex)%nat ≠ 0%nat) ∧
  forward vq_ex odd_ex [codebook_ex] = Err RuntimeError.
Proof.
  split; [reflexivity|]. split; [right; vm_compute; lia|].
  apply (X1_forward_bad_size [codebook_ex] vq_ex codebook_ex odd_ex);
    [reflexivity|right; vm_compute; lia].
Defined.

(** X5.  The loss and the latent depend on the store only through the
    codebook: on two stores that hold the same codebook [forward] returns
    the same pair.  In particular a second call on the store the first call
    left behind returns what the first call returned. *)
Theorem X5_forward_reads_codebook_only (h1 h2 : heap) self (W : matrix) inputs :
  wf_vq h1 self W → h2 !! embeddings_weight self = Some W →
  wf_tensor inputs →
  (0 < embeddings_dim self)%nat →
  (numel inputs `mod` embeddings_dim self)%nat = 0%nat →
  ∃ loss latent (h1' h2' h1'' : heap),
    forward self inputs h1 = Ok ((loss, latent), h1') ∧
    forward self inputs h2 = Ok ((loss, latent), h2') ∧
    forward self inputs h1' = Ok ((loss, latent), h1'').
Proof.
  intros Hvq HW2 Hx Hd Hdiv.
  pose proof Hvq as (HW & Hrest).
  assert (Hvq2 : wf_vq h2 self W) by (by split).
  destruct (forward_run h1 self W inputs Hvq Hx Hd Hdiv)
    as (X & idx & HX & _ & Hnear & _ & Hrun).
  destruct (forward_run h2 self W inputs Hvq2 Hx Hd Hdiv)
    as (X2 & idx2 & HX2 & _ & Hnear2 & _ & Hrun2).
  assert (Hvq3 : wf_vq (h1 ++ [one_hot_row (num_embeddings self) <$> idx]) self W).
  { split; [by apply lookup_app_l_Some|done]. }
  destruct (forward_run _ self W inputs Hvq3 Hx Hd Hdiv)
    as (X3 & idx3 & HX3 & _ & Hnear3 & _ & Hrun3).
  rewrite HX in HX2, HX3. injection HX2 as <-. injection HX3 as <-.
  rewrite <-(nearest_unique _ _ _ _ Hnear Hnear2) in Hrun2.
  rewrite <-(nearest_unique _ _ _ _ Hnear Hnear3) in Hrun3.
  eexists _, _, _, _, _. split; [exact Hrun|]. split; [exact Hrun2|exact Hrun3].
Qed.

Lemma X5_witness :
  wf_vq [codebook_ex] vq_ex codebook_ex ∧
  [codebook_ex; [[Qc_of_Z 7]]] !! embeddings_weight vq_ex = Some codebook_ex ∧
  wf_tensor z_ex ∧ (0 < embeddings_dim vq_ex)%nat ∧
  (numel z_ex `mod` embeddings_dim vq_ex)%nat = 0%nat ∧
  ∃ loss latent (h1' h2' h1'' : heap),
    forward vq_ex z_ex [codebook_ex] = Ok ((loss, latent), h1') ∧
    forward vq_ex z_ex [codebook_ex; [[Qc_of_Z 7]]] = Ok ((loss, latent), h2') ∧
    forward vq_ex z_ex h1' = Ok ((loss, latent), h1'').
Proof.
  split; [exact wf_vq_ex|]. split; [reflexivity|]. split; [reflexivity|].
  split; [simpl; lia|]. split; [reflexivity|].
  apply (X5_forward_reads_codebook_only [codebook_ex]
           [codebook_ex; [[Qc_of_Z 7]]] vq_ex codebook_ex z_ex);
    [exact wf_vq_ex|reflexivity|reflexivity|simpl; lia|reflexivity].
Defined.

End QuantizerProperties.

Section Batches.
Local Open Scope Qc_scope.


End Batches.

Section BatchProperties.
Local Open Scope Qc_scope.



End BatchProperties.

(** X8.  A quantiser made by [VectorQuantize.__init__] with at least one
    embedding of at least one entry holds its table in a new cell of the
    store, and [forward] on it returns for every input whose element count
    is a multiple of [embeddings_dim]: the latent has the shape of the
    input, the table and the cells that were there before are untouched.
    With [num_embeddings = 0] the constructor raises [ZeroDivisionError]. *)
Theorem X8_init_then_forward :
  (∀ K d cc (draw : matrix) (h : heap) inputs,
     (0 < K)%Z → (0 < d)%Z →
     length draw = Z.to_nat K → rect (Z.to_nat d) draw →
     wf_tensor inputs → numel inputs `mod` Z.to_nat d = 0 →
     ∃ self loss latent (h2 : heap),
       VectorQuantize_init K d cc draw h = Ok (self, h ++ [draw]) ∧
       forward self inputs (h ++ [draw]) = Ok ((loss, latent), h2) ∧
       shape latent = shape inputs ∧
       h2 !! length h = Some draw ∧
       ∀ l (m : list (list Qc)), h !! l = Some m → h2 !! l = Some m) ∧
  (∀ d cc (draw : matrix) (h : heap),
     (0 ≤ d)%Z → VectorQuantize_init 0 d cc draw h = Err ZeroDivisionError).
Proof.
  split.
  - intros K d cc draw h inputs HK Hd Hlen Hrect Hx Hdiv.
    destruct (VectorQuantize_init_wf K d cc draw h) as (self & Hinit & Hvq);
      [lia|lia|done|done|].
    assert (Hdim : embeddings_dim self = Z.to_nat d).
    { revert Hinit. unfold VectorQuantize_init.
      rewrite !bool_decide_eq_false_2 by lia. by intros [= <-]. }
    assert (Hw : embeddings_weight self = length h).
    { revert Hinit. unfold VectorQuantize_init.
      rewrite !bool_decide_eq_false_2 by lia. by intros [= <-]. }
    assert (Hd' : 0 < embeddings_dim self) by lia.
    rewrite <-Hdim in Hdiv.
    destruct (forward_run _ self draw inputs Hvq Hx Hd' Hdiv)
      as (X & idx & _ & _ & _ & _ & Hrun).
    eexists _, _, _, _. split; [exact Hinit|]. split; [exact Hrun|].
    split; [done|]. split.
    + apply lookup_app_l_Some. by apply list_lookup_middle.
    + intros l m Hl. by do 2 apply lookup_app_l_Some.
  - intros d cc draw h Hd. unfold VectorQuantize_init.
    by rewrite bool_decide_eq_false_2 by lia.
Qed.

Lemma X8_witness :
  (0 < 4)%Z ∧ (0 < 2)%Z ∧ length codebook_ex = Z.to_nat 4 ∧
  rect (Z.to_nat 2) codebook_ex ∧ wf_tensor z_ex ∧
  numel z_ex `mod` Z.to_nat 2 = 0 ∧
  ∃ self loss latent (h2 : heap),
    VectorQuantize_init 4 2 (Q2Qc (1 # 4)) codebook_ex []
    = Ok (self, [] ++ [codebook_ex]) ∧
    forward self z_ex ([] ++ [codebook_ex]) = Ok ((loss, latent), h2) ∧
    shape latent = shape z_ex ∧
    h2 !! length (@nil (list (list Qc))) = Some codebook_ex ∧
    ∀ l (m : list (list Qc)), [] !! l = Some m → h2 !! l = Some m.
Proof.
  split; [lia|]. split; [lia|]. split; [reflexivity|].
  split; [repeat constructor|]. split; [reflexivity|]. split; [reflexivity|].
  apply (proj1 X8_init_then_forward 4%Z 2%Z (Q2Qc (1 # 4)) codebook_ex [] z_ex);
    [lia|lia|reflexivity|repeat constructor|reflexivity|reflexivity].
Defined.

(** ** Further properties of the convolutional stacks *)

Section StackShapes.
Local Open Scope Z_scope.

Lemma conv_out_floor a : conv_out a 4 2 1 = a `div` 2.
Proof. unfold conv_out. Z.div_mod_to_equations. lia. Qed.

Lemma div_4 a : (a `div` 2) `div` 2 = a `div` 4.
Proof. rewrite Z.div_div by lia. done. Qed.

Lemma conv2d_result N C H W ic oc k s p :
  module_forward (Conv2d ic oc k s p) (TShape N C H W)
  = Ok (TShape N oc (conv_out H k s p) (conv_out W k s p)) ∨
  module_forward (Conv2d ic oc k s p) (TShape N C H W) = Err RuntimeError.
Proof. simpl. case_bool_decide; auto. Qed.

(** An input smaller than the kernel makes a convolution raise. *)
Lemma conv2d_small N C H W ic oc k s p :
  H + 2 * p < k ∨ W + 2 * p < k →
  module_forward (Conv2d ic oc k s p) (TShape N C H W) = Err RuntimeError.
Proof.
  intros Hsmall. simpl. rewrite bool_decide_eq_false_2; [done|]. lia.
Qed.

(** The encoder's stack divides height and width by 2^k, rounding down. *)
Lemma encoder_stack_shape ic hu nl rhu npc enc k N C H W :
  Encoder_init [ic; hu; nl; rhu; npc] = Ok enc →
  (npc = 4 ∧ k = 2 ∧ C = ic) ∨ (npc = 2 ∧ k = 1 ∧ C = hu `div` 2) →
  0 < N → 0 < C → 2 ≤ hu → 2 ^ k ≤ H → 2 ^ k ≤ W →
  module_forward (layers enc) (TShape N C H W)
  = Ok (TShape N hu (H `div` 2 ^ k) (W `div` 2 ^ k)).
Proof.
  intros Henc Hcfg HN HC Hhu HH HW.
  destruct (Encoder_init_Ok _ _ _ _ _ _ Henc) as (_ & _ & Hl).
  assert (0 < hu `div` 2) by (apply Z.div_str_pos; lia).
  destruct Hcfg as [(-> & -> & ->)|(-> & -> & ->)].
  - destruct Hl as [(_ & _ & ->)|[? _]]; [|lia]. change (2 ^ 2) with 4 in *.
    assert (2 ≤ H `div` 2 ∧ 2 ≤ W `div` 2 ∧ 1 ≤ H `div` 4 ∧ 1 ≤ W `div` 4)
      as (? & ? & ? & ?) by (Z.div_mod_to_equations; lia).
    rewrite sequential_cons, conv2d_run by lia.
    change (Ok ?x ≫= ?f) with (f x). rewrite !conv_out_floor.
    rewrite sequential_cons. change (module_forward ReLU ?x) with (Ok x).
    change (Ok ?x ≫= ?f) with (f x).
    rewrite sequential_cons, conv2d_run by lia.
    change (Ok ?x ≫= ?f) with (f x). rewrite !conv_out_floor, !div_4.
    rewrite sequential_cons. change (module_forward ReLU ?x) with (Ok x).
    change (Ok ?x ≫= ?f) with (f x).
    rewrite sequential_cons, conv2d_run by lia.
    change (Ok ?x ≫= ?f) with (f x). by rewrite !conv_out_same3.
  - destruct Hl as [[? _]|[_ ->]]; [lia|]. change (2 ^ 1) with 2 in *.
    assert (1 ≤ H `div` 2 ∧ 1 ≤ W `div` 2) as (? & ?)
      by (Z.div_mod_to_equations; lia).
    rewrite sequential_cons, conv2d_run by lia.
    change (Ok ?x ≫= ?f) with (f x). rewrite !conv_out_floor.
    rewrite sequential_cons. change (module_forward ReLU ?x) with (Ok x).
    change (Ok ?x ≫= ?f) with (f x).
    rewrite sequential_cons, conv2d_run by lia.
    change (Ok ?x ≫= ?f) with (f x). by rewrite !conv_out_same3.
Qed.

(** The decoder multiplies height and width by 2^k. *)
Lemma decoder_forward_shape ic hu nl rhu nptc dec N H W :
  Decoder_init [ic; hu; nl; rhu; nptc] = Ok dec →
  0 < N → 0 < ic → 0 < hu → (nptc = 2 → 2 ≤ hu) → (0 < nl → 0 < rhu) →
  0 < H → 0 < W →
  Decoder_forward dec (VTensor (TShape N ic H W))
  = Ok (VTensor (TShape N 3 (2 ^ nptc * H) (2 ^ nptc * W))).
Proof.
  intros Hdec HN Hic Hhu Hhu2 Hrhu HH HW.
  destruct (Decoder_init_Ok _ _ _ _ _ _ Hdec) as (H1 & Hres & Hpost).
  unfold Decoder_forward, call. rewrite H1, Hres.
  rewrite conv2d_run by lia. rewrite !conv_out_same3.
  change (?f <$> Ok ?x) with (Ok (f x)). change (Ok ?x ≫= ?f) with (f x).
  cbv beta iota.
  assert (Hrun : module_forward
            (Sequential (replicate (Z.to_nat nl) (Residual_block hu rhu)))
            (TShape N hu H W) = Ok (TShape N hu H W)).
  { destruct (Z.to_nat nl) eqn:E; [done|]. apply residuals_run; lia. }
  rewrite Hrun.
  change (?f <$> Ok ?x) with (Ok (f x)). change (Ok ?x ≫= ?f) with (f x).
  cbv beta iota.
  destruct Hpost as [[-> ->]|[-> ->]].
  - assert (0 < hu `div` 2) by (apply Z.div_str_pos; lia).
    change (2 ^ 2) with 4.
    replace (4 * H) with (2 * (2 * H)) by lia.
    replace (4 * W) with (2 * (2 * W)) by lia.
    by run_stack.
  - change (2 ^ 1) with 2. by run_stack.
Qed.

End StackShapes.

Section StackProperties.
Local Open Scope Z_scope.

(** X9.  A [Residual] block keeps the shape of its input: with positive
    channel counts the constructor succeeds, and the block it builds
    returns, on a non-empty batch with [input_channels] channels, a tensor
    of the same shape; on any other channel count it raises. *)
Theorem X9_residual_keeps_shape c r N C H W :
  0 < N → 0 < c → 0 < r → 0 < H → 0 < W →
  ∃ m, Residual_init c r = Ok m ∧
    (C = c → module_forward m (TShape N C H W) = Ok (TShape N C H W)) ∧
    (C ≠ c → module_forward m (TShape N C H W) = Err RuntimeError).
Proof.
  intros HN Hc Hr HH HW. exists (Residual_block c r).
  split; [apply Residual_init_Ok; lia|]. split; intros HC.
  - by apply residual_run.
  - unfold Residual_block.
    change (module_forward (Residual ?b) ?x)
      with (match module_forward b x with
            | Ok y => if decide (x = y) then Ok x else Err RuntimeError
            | Err e => Err e
            end).
    rewrite sequential_cons. change (module_forward ReLU ?x) with (Ok x).
    change (Ok ?x ≫= ?k) with (k x). rewrite sequential_cons.
    cbn [module_forward batch channels height width].
    rewrite bool_decide_eq_false_2; [done|]. intros (_ & _ & _ & _ & ? & _).
    done.
Qed.

Lemma X9_witness :
  0 < 1 ∧ 0 < 6 ∧ 0 < 2 ∧ 0 < 8 ∧ 0 < 8 ∧
  ∃ m, Residual_init 6 2 = Ok m ∧
    (6 = 6 → module_forward m (TShape 1 6 8 8) = Ok (TShape 1 6 8 8)) ∧
    (6 ≠ 6 → module_forward m (TShape 1 6 8 8) = Err RuntimeError).
Proof.
  do 5 (split; [lia|]). apply (X9_residual_keeps_shape 6 2 1 6 8 8); lia.
Defined.

(** X10.  [Encoder.__init__] raises [AssertionError] exactly when
    [number_pre_conv] is neither 2 nor 4.  With a supported stage count, a
    negative [hidden_units], or a negative [in_channels] where the first
    layer takes it ([number_pre_conv = 4]), makes a convolution's
    constructor raise [RuntimeError]; and with positive channel counts the
    constructor succeeds exactly when [num_layers] is at most 0: with
    [num_layers >= 1] it raises [TypeError], since the loop appends
    generator objects, which [nn.Sequential] refuses. *)
Theorem X10_encoder_init_succeeds_iff ic hu nl rhu npc :
  (Encoder_init [ic; hu; nl; rhu; npc] = Err AssertionError
   ↔ npc ≠ 2 ∧ npc ≠ 4) ∧
  (npc = 2 ∨ npc = 4 → hu < 0 ∨ (npc = 4 ∧ ic < 0) →
   Encoder_init [ic; hu; nl; rhu; npc] = Err RuntimeError) ∧
  (npc = 2 ∨ npc = 4 → 2 ≤ hu → (npc = 4 → 0 < ic) →
   ((∃ enc, Encoder_init [ic; hu; nl; rhu; npc] = Ok enc) ↔ nl ≤ 0) ∧
   (0 < nl → Encoder_init [ic; hu; nl; rhu; npc] = Err TypeError)).
Proof.
  assert (Hdiv : hu < 0 → hu `div` 2 < 0) by (Z.div_mod_to_equations; lia).
  assert (Hdiv' : 0 ≤ hu → 0 ≤ hu `div` 2) by (Z.div_mod_to_equations; lia).
  assert (Hneg : npc = 2 ∨ npc = 4 → hu < 0 ∨ (npc = 4 ∧ ic < 0) →
            Encoder_init [ic; hu; nl; rhu; npc] = Err RuntimeError).
  { intros Hn Hbad. unfold Encoder_init. destruct Hn as [-> | ->].
    - simpl negb. cbv iota.
      rewrite (bool_decide_eq_false_2 (2 = 4)) by done.
      rewrite (bool_decide_eq_true_2 (2 = 2)) by done.
      rewrite (Conv2d_init_Err (hu `div` 2) hu) by lia. done.
    - simpl negb. cbv iota.
      rewrite (bool_decide_eq_true_2 (4 = 4)) by done.
      rewrite (Conv2d_init_Err ic (hu `div` 2)) by lia. done. }
  assert (Hrun : npc = 2 ∨ npc = 4 → 0 ≤ hu → (npc = 4 → 0 ≤ ic) →
            Encoder_init [ic; hu; nl; rhu; npc]
            = if decide (nl ≤ 0)
              then Ok {| layers := Sequential
                     (if decide (npc = 4)
                      then [Conv2d ic (hu `div` 2) 4 2 1; ReLU;
                            Conv2d (hu `div` 2) hu 4 2 1; ReLU;
                            Conv2d hu hu 3 1 1; ReLU]
                      else [Conv2d (hu `div` 2) hu 4 2 1; ReLU;
                            Conv2d hu hu 3 1 1; ReLU]) |}
              else Err TypeError).
  { intros Hn Hhu Hic. unfold Encoder_init. destruct Hn as [-> | ->].
    - simpl negb. cbv iota.
      rewrite (bool_decide_eq_false_2 (2 = 4)) by done.
      rewrite (bool_decide_eq_true_2 (2 = 2)) by done.
      rewrite !Conv2d_init_Ok by auto.
      case_decide.
      + by replace (Z.to_nat nl) with 0%nat by lia.
      + destruct (Z.to_nat nl) as [|n] eqn:E; [lia|]. done.
    - simpl negb. cbv iota.
      rewrite (bool_decide_eq_true_2 (4 = 4)) by done.
      rewrite !Conv2d_init_Ok by auto.
      case_decide.
      + by replace (Z.to_nat nl) with 0%nat by lia.
      + destruct (Z.to_nat nl) as [|n] eqn:E; [lia|]. done. }
  split; [|split; [done|]].
  - split.
    + intros Herr. destruct (decide (npc = 2 ∨ npc = 4)) as [Hn|Hn]; [|lia].
      destruct (decide (hu < 0 ∨ (npc = 4 ∧ ic < 0))) as [Hbad|Hok].
      * by rewrite Hneg in Herr.
      * rewrite Hrun in Herr by lia. by case_decide.
    + intros [H2 H4]. unfold Encoder_init. by rewrite !bool_decide_eq_false_2.
  - intros Hn Hhu Hic.
    rewrite Hrun by (try done; lia). split; [split|].
    + intros [enc Henc]. by case_decide.
    + intros Hnl. rewrite decide_True by done. eauto.
    + intros Hnl. by rewrite decide_False by lia.
Qed.

(** X11.  [Decoder.__init__] raises [RuntimeError] on a negative channel
    count that a constructed layer takes ([in_channels], [hidden_units],
    and [residual_hidden_units] when there is a residual block).  With
    positive channel counts it succeeds exactly when
    [number_post_trans_conv] is 1 or 2, for every [num_layers], and raises
    [UnboundLocalError] otherwise.  The decoder it builds has
    [max(num_layers, 0)] residual blocks and as many transposed
    convolutions as [number_post_trans_conv] says, the last one with 3
    output channels. *)
Theorem X11_decoder_init_succeeds_iff ic hu nl rhu nptc :
  (ic < 0 ∨ hu < 0 ∨ (0 < nl ∧ rhu < 0) →
   Decoder_init [ic; hu; nl; rhu; nptc] = Err RuntimeError) ∧
  (0 < ic → 0 < hu → (0 < nl → 0 < rhu) → (nptc = 2 → 2 ≤ hu) →
   ((∃ dec, Decoder_init [ic; hu; nl; rhu; nptc] = Ok dec)
    ↔ nptc = 1 ∨ nptc = 2) ∧
   (nptc ≠ 1 → nptc ≠ 2 →
    Decoder_init [ic; hu; nl; rhu; nptc] = Err UnboundLocalError)) ∧
  (∀ dec, Decoder_init [ic; hu; nl; rhu; nptc] = Ok dec →
     _1_de_conv dec = Conv2d ic hu 3 1 1 ∧
     residual_layers dec
     = Sequential (replicate (Z.to_nat (Z.max nl 0)) (Residual_block hu rhu)) ∧
     post_block dec
     = if bool_decide (nptc = 2)
       then Sequential [ConvTranspose2d hu (hu `div` 2) 4 2 1; ReLU;
                        ConvTranspose2d (hu `div` 2) 3 4 2 1]
       else Sequential [ConvTranspose2d hu 3 4 2 1]).
Proof.
  assert (Hrun : 0 ≤ ic → 0 ≤ hu → (0 < nl → 0 ≤ rhu) →
            Decoder_init [ic; hu; nl; rhu; nptc]
            = if decide (nptc = 2)
              then Ok {| _1_de_conv := Conv2d ic hu 3 1 1;
                         residual_layers :=
                           Sequential (replicate (Z.to_nat nl)
                                         (Residual_block hu rhu));
                         post_block :=
                           Sequential [ConvTranspose2d hu (hu `div` 2) 4 2 1;
                                       ReLU;
                                       ConvTranspose2d (hu `div` 2) 3 4 2 1] |}
              else if decide (nptc = 1)
              then Ok {| _1_de_conv := Conv2d ic hu 3 1 1;
                         residual_layers :=
                           Sequential (replicate (Z.to_nat nl)
                                         (Residual_block hu rhu));
                         post_block :=
                           Sequential [ConvTranspose2d hu 3 4 2 1] |}
              else Err UnboundLocalError).
  { intros Hic Hhu Hrhu. unfold Decoder_init.
    assert (0 ≤ hu `div` 2) by (apply Z.div_pos; lia).
    rewrite Conv2d_init_Ok by done.
    change (Ok ?x ≫= ?f) with (f x). cbv beta.
    rewrite residual_list by done.
    change (Ok ?x ≫= ?f) with (f x). cbv beta.
    rewrite nn_Sequential_replicate.
    change (Ok ?x ≫= ?f) with (f x). cbv beta.
    destruct (decide (nptc = 2)) as [->|H2];
      [|destruct (decide (nptc = 1)) as [->|H1]].
    - rewrite (bool_decide_eq_true_2 (2 = 2)) by done.
      by rewrite !ConvTranspose2d_init_Ok by lia.
    - rewrite (bool_decide_eq_false_2 (1 = 2)) by done.
      rewrite (bool_decide_eq_true_2 (1 = 1)) by done.
      by rewrite !ConvTranspose2d_init_Ok by lia.
    - by rewrite !bool_decide_eq_false_2 by done. }
  split; [|split].
  - intros Hbad. unfold Decoder_init.
    destruct (decide (ic < 0 ∨ hu < 0)) as [Hneg|Hok].
    + by rewrite (Conv2d_init_Err ic hu) by done.
    + rewrite Conv2d_init_Ok by lia.
      change (Ok ?x ≫= ?f) with (f x). cbv beta.
      rewrite (comprehension_Err nl _ RuntimeError); [done|lia|].
      rewrite Residual_init_Err; [done|lia].
  - intros Hic Hhu Hrhu Hhu2.
    rewrite Hrun by (try lia; intros Hnl; specialize (Hrhu Hnl); lia).
    split; [split|].
    + intros [dec Hdec]. repeat case_decide; try done; lia.
    + intros [-> | ->]; [rewrite decide_False by done|];
        rewrite decide_True by done; eauto.
    + intros H1 H2. by rewrite !decide_False by done.
  - intros dec Hdec.
    destruct (Decoder_init_Ok _ _ _ _ _ _ Hdec) as (H1 & Hres & Hpost).
    split; [done|]. split.
    + rewrite Hres. by replace (Z.to_nat (Z.max nl 0)) with (Z.to_nat nl) by lia.
    + by destruct Hpost as [[-> ->]|[-> ->]].
Qed.

(** X12.  [Decoder.forward] upsamples by 2^k, k being
    [number_post_trans_conv]: a non-empty batch of [in_channels] channels
    and positive height H and width W comes out with 3 channels, height
    2^k H and width 2^k W.  Given a module object instead of a tensor it
    raises [TypeError]; given another channel count, [RuntimeError]. *)
Theorem X12_decoder_forward_upsamples ic hu nl rhu nptc dec N H W :
  Decoder_init [ic; hu; nl; rhu; nptc] = Ok dec →
  0 < N → 0 < ic → 0 < hu → (nptc = 2 → 2 ≤ hu) → (0 < nl → 0 < rhu) →
  0 < H → 0 < W →
  Decoder_forward dec (VTensor (TShape N ic H W))
  = Ok (VTensor (TShape N 3 (2 ^ nptc * H) (2 ^ nptc * W))) ∧
  (∀ m, Decoder_forward dec (VModule m) = Err TypeError) ∧
  (∀ C, C ≠ ic →
     Decoder_forward dec (VTensor (TShape N C H W)) = Err RuntimeError).
Proof.
  intros Hdec HN Hic Hhu Hhu2 Hrhu HH HW.
  split; [by eapply decoder_forward_shape|].
  destruct (Decoder_init_Ok _ _ _ _ _ _ Hdec) as (H1 & _ & _).
  split; [done|]. intros C HC. unfold Decoder_forward, call. rewrite H1.
  cbn [module_forward batch channels height width].
  rewrite bool_decide_eq_false_2; [done|]. intros (_ & _ & _ & _ & ? & _).
  done.
Qed.

Lemma X12_witness :
  Decoder_init [6; 6; 2; 2; 1] = Ok dec_ex ∧
  0 < 1 ∧ 0 < 6 ∧ 0 < 6 ∧ (1 = 2 → 2 ≤ 6) ∧ (0 < 2 → 0 < 2) ∧ 0 < 5 ∧ 0 < 7 ∧
  Decoder_forward dec_ex (VTensor (TShape 1 6 5 7))
  = Ok (VTensor (TShape 1 3 (2 ^ 1 * 5) (2 ^ 1 * 7))) ∧
  (∀ m, Decoder_forward dec_ex (VModule m) = Err TypeError) ∧
  (∀ C, C ≠ 6 →
     Decoder_forward dec_ex (VTensor (TShape 1 C 5 7)) = Err RuntimeError).
Proof.
  split; [reflexivity|]. do 7 (split; [lia|]).
  apply (X12_decoder_forward_upsamples 6 6 2 2 1 dec_ex 1 5 7);
    [reflexivity|lia..].
Defined.

Lemma X10_witness :
  (2 = 2 ∨ 2 = 4) ∧ 2 ≤ 6 ∧ (2 = 4 → 0 < 3) ∧
  ((∃ enc, Encoder_init [3; 6; 0; 2; 2] = Ok enc) ↔ 0 ≤ 0) ∧
  (Encoder_init [3; (-2); 0; 2; 4] = Err RuntimeError) ∧
  (0 < 1 → Encoder_init [3; 6; 1; 2; 2] = Err TypeError).
Proof.
  split; [by left|]. split; [lia|]. split; [lia|]. split; [|split].
  - apply (proj2 (proj2 (X10_encoder_init_succeeds_iff 3 6 0 2 2)));
      [by left|lia|lia].
  - apply (proj1 (proj2 (X10_encoder_init_succeeds_iff 3 (-2) 0 2 4)));
      [by right|left; lia].
  - apply (proj2 (proj2 (X10_encoder_init_succeeds_iff 3 6 1 2 2)));
      [by left|lia|lia].
Defined.

Lemma X11_witness :
  Decoder_init [6; 6; 2; 2; 1] = Ok dec_ex ∧
  (0 < 6 ∧ 0 < 6 ∧ (0 < 2 → 0 < 2) ∧ (1 = 2 → 2 ≤ 6) ∧
   ((∃ dec, Decoder_init [6; 6; 2; 2; 1] = Ok dec) ↔ 1 = 1 ∨ 1 = 2)) ∧
  Decoder_init [6; (-6); 0; 2; 1] = Err RuntimeError ∧
  _1_de_conv dec_ex = Conv2d 6 6 3 1 1 ∧
  residual_layers dec_ex
  = Sequential (replicate (Z.to_nat (Z.max 2 0)) (Residual_block 6 2)) ∧
  post_block dec_ex
  = if bool_decide (1 = 2)
    then Sequential [ConvTranspose2d 6 (6 `div` 2) 4 2 1; ReLU;
                     ConvTranspose2d (6 `div` 2) 3 4 2 1]
    else Sequential [ConvTranspose2d 6 3 4 2 1].
Proof.
  split; [reflexivity|]. split; [|split].
  - do 4 (split; [lia|]).
    apply (proj1 (proj2 (X11_decoder_init_succeeds_iff 6 6 2 2 1))); lia.
  - apply (proj1 (X11_decoder_init_succeeds_iff 6 (-6) 0 2 1)). lia.
  - apply (proj2 (proj2 (X11_decoder_init_succeeds_iff 6 6 2 2 1)) dec_ex).
    reflexivity.
Defined.

(** X13.  The encoder's layer stack downsamples by 2^k, rounding down
    (k = 2 for [number_pre_conv = 4], k = 1 for [number_pre_conv = 2]): a
    non-empty batch with the channel count of the first layer and height
    and width of at least 2^k comes out with [hidden_units] channels and
    height and width divided by 2^k.  A batch whose height or width is
    below 2^k makes the stack raise. *)
Theorem X13_encoder_stack_downsamples ic hu nl rhu npc enc k N C H W :
  Encoder_init [ic; hu; nl; rhu; npc] = Ok enc →
  (npc = 4 ∧ k = 2 ∧ C = ic) ∨ (npc = 2 ∧ k = 1 ∧ C = hu `div` 2) →
  0 < N → 0 < C → 2 ≤ hu →
  (2 ^ k ≤ H → 2 ^ k ≤ W →
   call (layers enc) (VTensor (TShape N C H W))
   = Ok (VTensor (TShape N hu (H `div` 2 ^ k) (W `div` 2 ^ k)))) ∧
  (H < 2 ^ k ∨ W < 2 ^ k →
   call (layers enc) (VTensor (TShape N C H W)) = Err RuntimeError).
Proof.
  intros Henc Hcfg HN HC Hhu. split.
  - intros HH HW. unfold call.
    by rewrite (encoder_stack_shape _ _ _ _ _ _ k _ _ _ _ Henc Hcfg).
  - intros Hsmall. unfold call.
    destruct (Encoder_init_Ok _ _ _ _ _ _ Henc) as (_ & _ & Hl).
    assert (0 < hu `div` 2) by (apply Z.div_str_pos; lia).
    destruct Hcfg as [(-> & -> & ->)|(-> & -> & ->)].
    + destruct Hl as [(_ & _ & ->)|[? _]]; [|lia]. change (2 ^ 2) with 4 in *.
      rewrite sequential_cons.
      destruct (conv2d_result N ic H W ic (hu `div` 2) 4 2 1) as [->| ->];
        [|done].
      change (Ok ?x ≫= ?f) with (f x). rewrite !conv_out_floor.
      rewrite sequential_cons. change (module_forward ReLU ?x) with (Ok x).
      change (Ok ?x ≫= ?f) with (f x). rewrite sequential_cons.
      rewrite conv2d_small; [done|]. Z.div_mod_to_equations. lia.
    + destruct Hl as [[? _]|[_ ->]]; [lia|]. change (2 ^ 1) with 2 in *.
      rewrite sequential_cons. rewrite conv2d_small; [done|]. lia.
Qed.

Lemma X13_witness :
  Encoder_init [3; 6; 0; 2; 2] = Ok enc_ex ∧
  ((2 = 4 ∧ 1 = 2 ∧ 3 = 3) ∨ (2 = 2 ∧ 1 = 1 ∧ 3 = 6 `div` 2)) ∧
  0 < 1 ∧ 0 < 3 ∧ 2 ≤ 6 ∧
  (2 ^ 1 ≤ 5 → 2 ^ 1 ≤ 5 →
   call (layers enc_ex) (VTensor (TShape 1 3 5 5))
   = Ok (VTensor (TShape 1 6 (5 `div` 2 ^ 1) (5 `div` 2 ^ 1)))) ∧
  (5 < 2 ^ 1 ∨ 5 < 2 ^ 1 →
   call (layers enc_ex) (VTensor (TShape 1 3 5 5)) = Err RuntimeError).
Proof.
  split; [reflexivity|]. split; [right; by repeat split|].
  do 3 (split; [lia|]).
  apply (X13_encoder_stack_downsamples 3 6 0 2 2 enc_ex 1 1 3 5 5);
    [reflexivity|right; by repeat split|lia|lia|lia].
Defined.

(** X14.  The encoder's stack followed by the decoder rounds height and
    width down to multiples of 2^k: for matching stage counts and sizes of
    at least 2^k the result has 3 channels, height 2^k (H div 2^k) and width
    2^k (W div 2^k).  This is never more than the input size, and it is the
    input size exactly when 2^k divides it. *)
Theorem X14_roundtrip_rounds_down
    ic hu nl rhu npc dhu dnl drhu nptc enc dec k N C H W :
  Encoder_init [ic; hu; nl; rhu; npc] = Ok enc →
  Decoder_init [hu; dhu; dnl; drhu; nptc] = Ok dec →
  (npc = 4 ∧ nptc = 2 ∧ k = 2 ∧ C = ic) ∨
  (npc = 2 ∧ nptc = 1 ∧ k = 1 ∧ C = hu `div` 2) →
  0 < N → 0 < C → 2 ≤ hu → 2 ≤ dhu → 0 < drhu →
  2 ^ k ≤ H → 2 ^ k ≤ W →
  (call (layers enc) (VTensor (TShape N C H W)) ≫= Decoder_forward dec)
  = Ok (VTensor (TShape N 3 (2 ^ k * (H `div` 2 ^ k))
                        (2 ^ k * (W `div` 2 ^ k)))) ∧
  2 ^ k * (H `div` 2 ^ k) ≤ H ∧ 2 ^ k * (W `div` 2 ^ k) ≤ W ∧
  (2 ^ k * (H `div` 2 ^ k) = H ↔ (2 ^ k | H)) ∧
  (2 ^ k * (W `div` 2 ^ k) = W ↔ (2 ^ k | W)).
Proof.
  intros Henc Hdec Hcfg HN HC Hhu Hdhu Hdrhu HH HW.
  assert (Hk : nptc = k ∧ 0 < 2 ^ k ∧
               ((npc = 4 ∧ k = 2 ∧ C = ic) ∨ (npc = 2 ∧ k = 1 ∧ C = hu `div` 2))).
  { destruct Hcfg as [(-> & -> & -> & ->)|(-> & -> & -> & ->)];
      (split; [done|split; [done|]]); [left|right]; done. }
  destruct Hk as (-> & Hpos & Hcfg').
  assert (Harith : ∀ a, 2 ^ k ≤ a →
            0 < a `div` 2 ^ k ∧ 2 ^ k * (a `div` 2 ^ k) ≤ a ∧
            (2 ^ k * (a `div` 2 ^ k) = a ↔ (2 ^ k | a))).
  { intros a Ha. split; [apply Z.div_str_pos; lia|].
    split; [apply Z.mul_div_le; lia|].
    rewrite <-Z.mod_divide by lia. rewrite <-Z.div_exact by lia.
    split; intros E; exact (eq_sym E). }
  destruct (Harith H HH) as (? & ? & ?). destruct (Harith W HW) as (? & ? & ?).
  split; [|done].
  unfold call.
  rewrite (encoder_stack_shape _ _ _ _ _ _ k _ _ _ _ Henc Hcfg') by done.
  change (?f <$> Ok ?x) with (Ok (f x)). change (Ok ?x ≫= ?f) with (f x).
  apply (decoder_forward_shape _ _ _ _ _ _ _ _ _ Hdec); lia.
Qed.

Lemma X14_witness :
  Encoder_init [3; 6; 0; 2; 2] = Ok enc_ex ∧
  Decoder_init [6; 6; 2; 2; 1] = Ok dec_ex ∧
  (call (layers enc_ex) (VTensor image_odd_ex) ≫= Decoder_forward dec_ex)
  = Ok (VTensor (TShape 1 3 (2 ^ 1 * (5 `div` 2 ^ 1))
                        (2 ^ 1 * (5 `div` 2 ^ 1)))) ∧
  2 ^ 1 * (5 `div` 2 ^ 1) ≤ 5 ∧ 2 ^ 1 * (5 `div` 2 ^ 1) ≤ 5 ∧
  (2 ^ 1 * (5 `div` 2 ^ 1) = 5 ↔ (2 ^ 1 | 5)) ∧
  (2 ^ 1 * (5 `div` 2 ^ 1) = 5 ↔ (2 ^ 1 | 5)).
Proof.
  split; [reflexivity|]. split; [reflexivity|].
  apply (X14_roundtrip_rounds_down 3 6 0 2 2 6 2 2 1 enc_ex dec_ex 1 1 3 5 5);
    [reflexivity|reflexivity|right; by repeat split|lia..].
Defined.

End StackProperties.

(** ** Properties of the variational autoencoder of vae.py *)

Section VAEShapes.

(** X15.  One turn of the training loop works for a batch of exactly
    [BATCH_SIZE] = 64 rows of [input_size] entries, and gives 64 rows of
    [output_size] entries.  A batch of one row is broadcast to 64 rows by
    [sample]; every other number of rows raises in [sample], and a row
    length other than [input_size] raises in the encoder. *)
Theorem X15_vae_batch_size input hidden dec_hidden out B :
  let encoder := VAE.Variational_Encoder_init input hidden in
  let decoder := VAE.Variational_decoder_init dec_hidden out in
  VAE.Variational_Encoder_forward encoder (B, input)
  = Ok ((B, VAE.LATENT_SIZE), (B, VAE.LATENT_SIZE)) ∧
  (B = 64 ∨ B = 1 →
   VAE.reconstruct encoder decoder (B, input) = Ok (VAE.BATCH_SIZE, out)) ∧
  (B ≠ 64 → B ≠ 1 →
   VAE.sample (B, VAE.LATENT_SIZE) (B, VAE.LATENT_SIZE) = Err RuntimeError ∧
   VAE.reconstruct encoder decoder (B, input) = Err RuntimeError) ∧
  (∀ c, c ≠ input →
     VAE.Variational_Encoder_forward encoder (B, c) = Err RuntimeError ∧
     VAE.reconstruct encoder decoder (B, c) = Err RuntimeError).
Proof.
  intros encoder decoder.
  assert (Henc : VAE.Variational_Encoder_forward encoder (B, input)
                 = Ok ((B, VAE.LATENT_SIZE), (B, VAE.LATENT_SIZE))).
  { unfold VAE.Variational_Encoder_forward, VAE.Linear_forward; simpl.
    by repeat (rewrite decide_True by done; simpl). }
  split; [done|]. split; [|split].
  - intros HB. unfold VAE.reconstruct. rewrite Henc. simpl.
    unfold VAE.sample, VAE.broadcast, VAE.broadcast_dim,
      VAE.Variational_decoder_forward, VAE.Linear_forward,
      VAE.BATCH_SIZE, VAE.LATENT_SIZE; simpl.
    destruct HB as [-> | ->]; simpl; by repeat (rewrite decide_True by done; simpl).
  - intros H64 H1.
    assert (Hs : VAE.sample (B, VAE.LATENT_SIZE) (B, VAE.LATENT_SIZE)
                 = Err RuntimeError).
    { unfold VAE.sample, VAE.broadcast, VAE.broadcast_dim, VAE.BATCH_SIZE; simpl.
      rewrite (decide_False (P := B = 64)) by done.
      by rewrite (decide_False (P := B = 1)) by done. }
    split; [done|]. unfold VAE.reconstruct. rewrite Henc. simpl. by rewrite Hs.
  - intros c Hc.
    assert (He : VAE.Variational_Encoder_forward encoder (B, c)
                 = Err RuntimeError).
    { unfold VAE.Variational_Encoder_forward, VAE.Linear_forward; simpl.
      by rewrite decide_False. }
    split; [done|]. unfold VAE.reconstruct. by rewrite He.
Qed.

Lemma X15_witness :
  let encoder := VAE.Variational_Encoder_init 784 100 in
  let decoder := VAE.Variational_decoder_init 100 784 in
  VAE.Variational_Encoder_forward encoder (64, 784)
  = Ok ((64, VAE.LATENT_SIZE), (64, VAE.LATENT_SIZE)) ∧
  (64 = 64 ∨ 64 = 1 →
   VAE.reconstruct encoder decoder (64, 784) = Ok (VAE.BATCH_SIZE, 784)) ∧
  (64 ≠ 64 → 64 ≠ 1 →
   VAE.sample (64, VAE.LATENT_SIZE) (64, VAE.LATENT_SIZE) = Err RuntimeError ∧
   VAE.reconstruct encoder decoder (64, 784) = Err RuntimeError) ∧
  (∀ c, c ≠ 784 →
     VAE.Variational_Encoder_forward encoder (64, c) = Err RuntimeError ∧
     VAE.reconstruct encoder decoder (64, c) = Err RuntimeError).
Proof. exact (X15_vae_batch_size 784 100 100 784 64). Defined.

End VAEShapes.

